(** * vpn_benchmark.py: a shallow embedding and its verified properties

    The development follows the script top to bottom: [run],
    [get_external_ip], [parse_network_quality], the four [emoji_for_*]
    classifiers and [main].

    Conventions.
    - A Python [str] is a [string]; a character is read as the code point
      of the same number, so the input texts covered are those whose code
      points are below 256.  On that range [\d] is the ten ASCII digits,
      [\s] is the Unicode white space below 256 and case-insensitive
      matching of an ASCII letter is ASCII case folding, as in CPython's
      [re] for [str] patterns.  The four marker glyphs printed by [main]
      lie outside that range and are written by their UTF-8 bytes; they
      are only printed, never parsed.
    - A Python [float] is an IEEE-754 binary64 value, [spec_float] with
      precision 53 and maximal exponent 1024.
    - A Python [int] is a [Z].
    - Code that can raise returns a [result]; the part of [main] that
      prints and touches the log file is written in a state-and-error
      monad over the console and the file system.
    - The console is taken to accept what the script prints, its own
      non-ASCII literals included (a UTF-8 standard output), so [print]
      raises nothing.
    - The log file is seen as the list of its records, each one ended
      by its line terminator, which is what [csv.writer] leaves behind;
      a file whose last line is not terminated is not represented.
      Opening it fails only when it is missing.
    - The output of the measurement command is the text
      [check_output] decoded; a run whose output does not decode is a
      run whose [spawn] raises [UnicodeDecodeError]. *)

From Stdlib Require Import ZArith NArith QArith Qabs Qpower.
From Stdlib Require Import List Ascii String Bool Lia.
From Stdlib Require Import Floats.SpecFloat.
From Stdlib Require DecimalString DecimalN.
Import ListNotations.

Local Open Scope string_scope.
Local Open Scope Z_scope.

Set Implicit Arguments.

(** ** Exceptions and results *)

Inductive exn : Type :=
| ValueError
| TypeError
| AttributeError
| CalledProcessError (returncode : Z) (output : string)
| FileNotFoundError
| PermissionError
| UnicodeDecodeError
| URLError
| HTTPError (code : Z)
| TimeoutError
| KeyboardInterrupt
| SystemExit.

(** [isinstance(e, Exception)]: everything above except the two classes
    that derive from [BaseException] only. *)
Definition is_Exception (e : exn) : bool :=
  match e with
  | KeyboardInterrupt | SystemExit => false
  | _ => true
  end.

Inductive result (A : Type) : Type :=
| Ok (a : A)
| Raise (e : exn).

Arguments Ok {A} a.
Arguments Raise {A} e.

Definition rbind {A B} (x : result A) (f : A -> result B) : result B :=
  match x with
  | Ok a => f a
  | Raise e => Raise e
  end.

Notation "x <- c1 ;; c2" := (rbind c1 (fun x => c2))
  (at level 61, c1 at next level, right associativity).

(** ** Characters *)

Definition code (c : ascii) : N := N_of_ascii c.

Definition in_range (lo hi : N) (c : ascii) : bool :=
  (N.leb lo (code c) && N.leb (code c) hi)%bool.

(** [Py_UNICODE_ISDECIMAL] below 256. *)
Definition is_digit (c : ascii) : bool := in_range 48 57 c.

(** [Py_UNICODE_ISSPACE] below 256: TAB LF VT FF CR, FS GS RS US, SPACE,
    NEL and NO-BREAK SPACE. *)
Definition is_space (c : ascii) : bool :=
  (in_range 9 13 c || in_range 28 32 c
   || N.eqb (code c) 133 || N.eqb (code c) 160)%bool.

Definition is_ascii_upper (c : ascii) : bool := in_range 65 90 c.
Definition is_ascii_lower (c : ascii) : bool := in_range 97 122 c.

(** Simple lower-casing below 256 (the one [re.IGNORECASE] uses): A-Z and
    the Latin-1 capitals other than the multiplication sign. *)
Definition lower (c : ascii) : ascii :=
  if is_ascii_upper c then ascii_of_N (code c + 32)
  else if (in_range 192 222 c && negb (N.eqb (code c) 215))%bool
       then ascii_of_N (code c + 32)
       else c.

(** [str.upper] on one ASCII character. *)
Definition upper_ascii (c : ascii) : ascii :=
  if is_ascii_lower c then ascii_of_N (code c - 32) else c.

Definition ascii_eqb (a b : ascii) : bool := N.eqb (code a) (code b).

(** ** Regular expressions

    The fragment of [re] syntax the six patterns of
    [parse_network_quality] are written in.  Every quantifier of those
    patterns applies to a one-character atom, so repetition is over
    atoms. *)

Inductive item : Type :=
| Ch (c : ascii)      (* a literal inside [...] *)
| Digit               (* \d *)
| Space.              (* \s *)

Inductive atom : Type :=
| Lit (c : ascii)           (* a literal character *)
| AnyChar                   (* .  (no DOTALL: anything but a newline) *)
| Class (items : list item). (* [...], and \d or \s on their own *)

Inductive regex : Type :=
| Eps
| One (a : atom)
| Seq (r1 r2 : regex)
| Alt (r1 r2 : regex)                       (* r1|r2, r1 tried first *)
| Rep (greedy : bool) (lo : nat) (a : atom) (* a{lo,} or a{lo,}? *)
| Group (n : nat) (r : regex)               (* ( r ), numbered n *)
| NonCapturing (r : regex).                 (* (?: r ) *)

Definition item_match (icase : bool) (i : item) (c : ascii) : bool :=
  match i with
  | Ch p => if icase then ascii_eqb (lower c) (lower p) else ascii_eqb c p
  | Digit => is_digit c
  | Space => is_space c
  end.

(** Does the atom accept the character?  Below 256 a letter of the
    pattern is matched under IGNORECASE by its two ASCII forms only; the
    four characters beyond that range that [re] also folds onto ASCII
    letters (U+0130 and U+0131 onto i, U+017F onto s, U+212A onto k)
    are outside the texts covered. *)
Definition atom_match (icase : bool) (a : atom) (c : ascii) : bool :=
  match a with
  | Lit p => if icase then ascii_eqb (lower c) (lower p) else ascii_eqb c p
  | AnyChar => negb (N.eqb (code c) 10)
  | Class items => existsb (fun i => item_match icase i c) items
  end.

(** Captured groups, latest binding first. *)
Definition groups : Type := list (nat * string).

Fixpoint lookup (n : nat) (g : groups) : option string :=
  match g with
  | [] => None
  | (k, v) :: g' => if Nat.eqb k n then Some v else lookup n g'
  end.

(** One way of matching: the text consumed, the text left, the groups. *)
Record way : Type := Way { consumed : string; rest : string; caps : groups }.

Definition extend (c : ascii) (w : way) : way :=
  Way (String c (consumed w)) (rest w) (caps w).

(** All ways [a{lo,}] matches at the head of [s], in the order a
    backtracking matcher tries them: longest first when greedy, shortest
    first when lazy. *)
Fixpoint rep_ways (icase greedy : bool) (a : atom) (lo : nat) (s : string)
    (g : groups) : list way :=
  let stop := match lo with O => [Way "" s g] | S _ => [] end in
  match s with
  | EmptyString => stop
  | String c s' =>
      if atom_match icase a c then
        let more := map (extend c) (rep_ways icase greedy a (pred lo) s' g) in
        if greedy then more ++ stop else stop ++ more
      else stop
  end%list.

(** All ways [r] matches at the head of [s], in backtracking order.  The
    first way of the list is the match [re] reports. *)
Fixpoint ways (icase : bool) (r : regex) (s : string) (g : groups)
    : list way :=
  match r with
  | Eps => [Way "" s g]
  | One a =>
      match s with
      | String c s' =>
          if atom_match icase a c then [Way (String c "") s' g] else []
      | EmptyString => []
      end
  | Seq r1 r2 =>
      flat_map
        (fun w1 =>
           map (fun w2 => Way (consumed w1 ++ consumed w2) (rest w2) (caps w2))
               (ways icase r2 (rest w1) (caps w1)))
        (ways icase r1 s g)
  | Alt r1 r2 => (ways icase r1 s g ++ ways icase r2 s g)%list
  | Rep greedy lo a => rep_ways icase greedy a lo s g
  | Group n r' =>
      map (fun w => Way (consumed w) (rest w) ((n, consumed w) :: caps w))
          (ways icase r' s g)
  | NonCapturing r' => ways icase r' s g
  end.

(** A match object: where the match starts, what it covers, its groups. *)
Record match_obj : Type :=
  Match { m_start : nat; m_text : string; m_groups : groups }.

(** [m.group(n)] for n >= 1; [None] when the group took no part. *)
Definition group (m : match_obj) (n : nat) : option string :=
  lookup n (m_groups m).

(** [re.search]: the leftmost position at which the pattern matches. *)
Fixpoint search_from (icase : bool) (r : regex) (pos : nat) (s : string)
    : option match_obj :=
  match ways icase r s [] with
  | w :: _ => Some (Match pos (consumed w) (caps w))
  | [] =>
      match s with
      | EmptyString => None
      | String _ s' => search_from icase r (S pos) s'
      end
  end.

Definition IGNORECASE : bool := true.

Definition search (r : regex) (text : string) (flags : bool)
    : option match_obj :=
  search_from flags r 0 text.

(** Pattern-building shorthands. *)
Fixpoint lit (s : string) : regex :=
  match s with
  | EmptyString => Eps
  | String c EmptyString => One (Lit c)
  | String c s' => Seq (One (Lit c)) (lit s')
  end.

Fixpoint seq (rs : list regex) : regex :=
  match rs with
  | [] => Eps
  | [r] => r
  | r :: rs' => Seq r (seq rs')
  end.

Definition spaces0 : regex := Rep true 0 (Class [Space]).   (* \s* *)
Definition spaces1 : regex := Rep true 1 (Class [Space]).   (* \s+ *)
Definition digits1 : regex := Rep true 1 (Class [Digit]).   (* \d+ *)
Definition number1 : regex := Rep true 1 (Class [Digit; Ch "."%char]). (* [\d.]+ *)
Definition lazy_any : regex := Rep false 0 AnyChar.      (* .*? *)

(** The six patterns, in the order [parse_network_quality] uses them. *)

(* Downlink\s+capacity:\s*([\d.]+) *)
Definition pat_down : regex :=
  seq [lit "Downlink"; spaces1; lit "capacity:"; spaces0; Group 1 number1].

(* Uplink\s+capacity:\s*([\d.]+) *)
Definition pat_up : regex :=
  seq [lit "Uplink"; spaces1; lit "capacity:"; spaces0; Group 1 number1].

(* Idle\s+Latency:\s*([\d.]+)\s*(?:ms|milliseconds) *)
Definition pat_latency : regex :=
  seq [lit "Idle"; spaces1; lit "Latency:"; spaces0; Group 1 number1;
       spaces0; NonCapturing (Alt (lit "ms") (lit "milliseconds"))].

(* Idle\s+Latency:.*?\|\s*(\d+)\s*RPM *)
Definition pat_idle_rpm : regex :=
  seq [lit "Idle"; spaces1; lit "Latency:"; lazy_any; lit "|"; spaces0;
       Group 1 digits1; spaces0; lit "RPM"].

(* Responsiveness:\s*(High|Medium|Low) *)
Definition pat_resp_label : regex :=
  seq [lit "Responsiveness:"; spaces0;
       Group 1 (Alt (lit "High") (Alt (lit "Medium") (lit "Low")))].

(* Responsiveness:.*?(\d+)\s*RPM *)
Definition pat_resp_rpm : regex :=
  seq [lit "Responsiveness:"; lazy_any; Group 1 digits1; spaces0; lit "RPM"].

(** ** Numbers *)

Definition prec : Z := 53.
Definition emax : Z := 1024.

Definition float : Type := spec_float.

(** The binary64 value nearest to [n / d] (ties to even), for [0 <= n]
    and [0 < d]: the quotient is taken with enough bits and rounded
    once, so the result is the correctly rounded one, as [float(str)]
    returns. *)
Definition float_of_ratio (n d : Z) : float :=
  match n with
  | Z0 => S754_zero false
  | _ =>
      let '(q, e, l) := SFdiv_core_binary prec emax n 0 d 0 in
      binary_round_aux prec emax false q e l
  end.

Fixpoint all_digits (s : string) : bool :=
  match s with
  | EmptyString => true
  | String c s' => (is_digit c && all_digits s')%bool
  end.

Definition digit_value (c : ascii) : Z := Z.of_N (code c) - 48.

Fixpoint decimal_value (acc : Z) (s : string) : Z :=
  match s with
  | EmptyString => acc
  | String c s' => decimal_value (10 * acc + digit_value c) s'
  end.

(** The text before the first point and, when there is a point, the text
    after it. *)
Fixpoint split_point (s : string) : string * option string :=
  match s with
  | EmptyString => (EmptyString, None)
  | String c s' =>
      if ascii_eqb c "."%char then (EmptyString, Some s')
      else let '(a, b) := split_point s' in (String c a, b)
  end.

(** [float(s)] for a text [s] of digits and points, which is all that
    [[\d.]+] captures: digits with at most one point and at least one
    digit denote a number; anything else raises [ValueError]. *)
Definition py_float (s : string) : result float :=
  let '(ip, fp) := split_point s in
  let fp := match fp with Some f => f | None => EmptyString end in
  if (all_digits ip && all_digits fp
      && negb (Nat.eqb (length ip + length fp) 0))%bool
  then Ok (float_of_ratio (decimal_value 0 (ip ++ fp))
                          (10 ^ Z.of_nat (length fp)))
  else Raise ValueError.

(** [int(s)] for a text [s] of digits, which is all that [\d+] captures.
    [max_str_digits] is the interpreter's
    [sys.get_int_max_str_digits()]: 4300 by default from CPython 3.11
    on, 0 when the limit is switched off or does not exist. *)
Definition py_int (max_str_digits : nat) (s : string) : result Z :=
  if (all_digits s && negb (Nat.eqb (length s) 0))%bool then
    if (negb (Nat.eqb max_str_digits 0)
        && Nat.ltb max_str_digits (length s))%bool
    then Raise ValueError
    else Ok (decimal_value 0 s)
  else Raise ValueError.

Definition default_max_str_digits : nat := 4300.

(** ** Text helpers *)

Fixpoint str_map (f : ascii -> ascii) (s : string) : string :=
  match s with
  | EmptyString => EmptyString
  | String c s' => String (f c) (str_map f s')
  end.

(** [str.lower] *)
Definition str_lower (s : string) : string := str_map lower s.

Definition is_ascii_letter (c : ascii) : bool :=
  (is_ascii_upper c || is_ascii_lower c)%bool.

(** [str.title] on ASCII text: a letter that follows a letter is
    lower-cased, any other letter is upper-cased. *)
Fixpoint title_from (prev_cased : bool) (s : string) : string :=
  match s with
  | EmptyString => EmptyString
  | String c s' =>
      String (if prev_cased then lower c else upper_ascii c)
             (title_from (is_ascii_letter c) s')
  end.

Definition title (s : string) : string := title_from false s.

(** ** parse_network_quality *)

Record metrics : Type := Metrics {
  down : option float;
  up : option float;
  latency_ms : option float;
  resp_label : string;
  resp_rpm : option Z;
  idle_rpm : option Z
}.

(** What a conversion is applied to: [m.group(1)].  A group that took no
    part in the match is [None] in Python, which none of [float], [int]
    and [.title] accepts. *)
Definition with_group1 {A} (m : match_obj) (missing : exn)
    (conv : string -> result A) : result A :=
  match group m 1 with
  | Some s => conv s
  | None => Raise missing
  end.

Definition grab_float (text : string) (pattern : regex)
    : result (option float) :=
  match search pattern text IGNORECASE with
  | Some m => x <- with_group1 m TypeError py_float ;; Ok (Some x)
  | None => Ok None
  end.

Definition grab_int (max_str_digits : nat) (text : string) (pattern : regex)
    : result (option Z) :=
  match search pattern text IGNORECASE with
  | Some m =>
      x <- with_group1 m TypeError (py_int max_str_digits) ;; Ok (Some x)
  | None => Ok None
  end.

Definition grab_label (text : string) (pattern : regex)
    : result (option string) :=
  match search pattern text IGNORECASE with
  | Some m =>
      x <- with_group1 m AttributeError (fun s => Ok (title s)) ;; Ok (Some x)
  | None => Ok None
  end.

(** [x or "Unknown"]: the default replaces [None] and the empty text. *)
Definition or_default (x : option string) (d : string) : string :=
  match x with
  | Some EmptyString | None => d
  | Some s => s
  end.

Definition parse_network_quality (max_str_digits : nat) (text : string)
    : result metrics :=
  down <- grab_float text pat_down ;;
  up <- grab_float text pat_up ;;
  latency <- grab_float text pat_latency ;;
  idle_rpm <- grab_int max_str_digits text pat_idle_rpm ;;
  resp_label <- grab_label text pat_resp_label ;;
  resp_rpm <- grab_int max_str_digits text pat_resp_rpm ;;
  Ok (Metrics down up latency (or_default resp_label "Unknown")
              resp_rpm idle_rpm).

(** ** Classifiers *)

(** [float(n)] for an integer below 2^53 in size: exact. *)
Definition float_of_int (n : Z) : float := binary_normalize prec emax n 0 false.

(** The comparisons of Python floats: IEEE-754, false on NaN.  An
    integer operand this small is first converted by [float_of_int]. *)
Definition float_lt (x y : float) : bool := SFltb x y.
Definition float_le (x y : float) : bool := SFleb x y.
Definition float_gt (x y : float) : bool := SFltb y x.
Definition float_ge (x y : float) : bool := SFleb y x.

(** The three markers, by their UTF-8 bytes. *)
Definition green : string := "🟢".
Definition yellow : string := "🟡".
Definition red : string := "🔴".

Definition emoji_for_down (x : option float) : string :=
  match x with
  | None => red
  | Some x =>
      if float_gt x (float_of_int 300) then green
      else if float_ge x (float_of_int 100) then yellow
      else red
  end.

Definition emoji_for_up (x : option float) : string :=
  match x with
  | None => red
  | Some x =>
      if float_gt x (float_of_int 20) then green
      else if float_ge x (float_of_int 5) then yellow
      else red
  end.

Definition emoji_for_latency (ms : option float) : string :=
  match ms with
  | None => red
  | Some ms =>
      if float_lt ms (float_of_int 50) then green
      else if float_le ms (float_of_int 150) then yellow
      else red
  end.

Definition emoji_for_resp (label : string) : string :=
  if String.eqb (str_lower label) "high" then green
  else if String.eqb (str_lower label) "medium" then yellow
  else red.

(** ** The outside world *)

(** A finished child process: exit status and captured output (standard
    output and standard error together, decoded as text). *)
Record completed : Type :=
  Completed { returncode : Z; output : string }.

(** What one run of the script finds outside itself. *)
Record world : Type := World {
  (* sys.argv *)
  argv : list string;
  (* running a command to completion, or the error of starting it or of
     decoding its output *)
  spawn : list string -> result completed;
  (* urlopen(url, timeout=t), .read() and .decode("utf-8") in one step:
     the decoded body, or the exception any of the three raised *)
  http_get : string -> Z -> result string;
  (* dt.datetime.now().strftime("%Y-%m-%d %H:%M:%S") *)
  now : string
}.

(** [subprocess.check_output(cmd, stderr=STDOUT, text=True)] *)
Definition check_output (w : world) (cmd : list string) : result string :=
  p <- spawn w cmd ;;
  if Z.eqb (returncode p) 0 then Ok (output p)
  else Raise (CalledProcessError (returncode p) (output p)).

Definition run (w : world) (cmd : list string) : result string :=
  match check_output w cmd with
  | Ok out => Ok out
  | Raise (CalledProcessError _ out) => Ok out
  | Raise e => Raise e
  end.

(** [str.strip] *)
Fixpoint lstrip (s : string) : string :=
  match s with
  | String c s' => if is_space c then lstrip s' else s
  | EmptyString => EmptyString
  end.

Fixpoint rstrip (s : string) : string :=
  match s with
  | EmptyString => EmptyString
  | String c s' =>
      match rstrip s' with
      | EmptyString => if is_space c then EmptyString else String c EmptyString
      | t => String c t
      end
  end.

Definition strip (s : string) : string := rstrip (lstrip s).

Definition get_external_ip (w : world) (timeout : Z) : result string :=
  match http_get w "https://api.ipify.org" timeout with
  | Ok body => Ok (strip body)
  | Raise e => if is_Exception e then Ok "N/A" else Raise e
  end.

(** ** Formatting *)

Definition str_of_nat_Z (z : Z) : string :=
  DecimalString.NilZero.string_of_uint (N.to_uint (Z.to_N z)).

(** [str(z)] *)
Definition str_of_int (z : Z) : string :=
  if Z.ltb z 0 then "-" ++ str_of_nat_Z (- z) else str_of_nat_Z z.

Fixpoint zeros (n : nat) : string :=
  match n with
  | O => EmptyString
  | S n' => String "0"%char (zeros n')
  end.

(** The integer nearest to [n / d], ties to even, for [0 < d]. *)
Definition round_half_even (n d : Z) : Z :=
  let q := n / d in
  let r := n mod d in
  match 2 * r ?= d with
  | Lt => q
  | Gt => q + 1
  | Eq => if Z.even q then q else q + 1
  end.

(** [k] scaled back by [10^nd], written with [nd] decimals. *)
Definition fixed_digits (nd : nat) (k : Z) : string :=
  let p := 10 ^ Z.of_nat nd in
  let frac := str_of_nat_Z (k mod p) in
  match nd with
  | O => str_of_nat_Z k
  | _ => str_of_nat_Z (k / p) ++ "." ++ zeros (nd - length frac) ++ frac
  end.

Definition sign_text (s : bool) : string := if s then "-" else "".

(** [f"{x:.{nd}f}"]: the exact binary value rounded to [nd] decimals. *)
Definition format_f (nd : nat) (x : float) : string :=
  match x with
  | S754_nan => "nan"
  | S754_infinity s => sign_text s ++ "inf"
  | S754_zero s => sign_text s ++ fixed_digits nd 0
  | S754_finite s m e =>
      sign_text s ++
      fixed_digits nd
        (round_half_even (Zpos m * 10 ^ Z.of_nat nd * 2 ^ Z.max e 0)
                         (2 ^ Z.max (- e) 0))
  end.

(** [fmt] of [main]: anything that is not a float, so [None], becomes
    "0.000" whatever [nd] is. *)
Definition fmt (x : option float) (nd : nat) : string :=
  match x with
  | Some x => format_f nd x
  | None => "0.000"
  end.

(** ** Console and log file *)

(** A cell handed to [csv.writer]: text or an integer. *)
Inductive cell : Type :=
| Str (s : string)
| Int (z : Z).

(** What [csv.writer] writes for a cell: the text itself, [str] of a
    number. *)
Definition cell_text (c : cell) : string :=
  match c with
  | Str s => s
  | Int z => str_of_int z
  end.

(** A record of the log file: its fields as text. *)
Definition row : Type := list string.

(** What a run can change: the lines printed so far and the content of
    [vpn_performance.csv] ([None] while the file does not exist), as
    the list of its records, every one of them ended by its line
    terminator. *)
Record state : Type := State {
  stdout : list string;
  log_file : option (list row)
}.

Definition M (A : Type) : Type := state -> result A * state.

Definition ret {A} (a : A) : M A := fun st => (Ok a, st).

Definition bind {A B} (c : M A) (f : A -> M B) : M B :=
  fun st =>
    match c st with
    | (Ok a, st') => f a st'
    | (Raise e, st') => (Raise e, st')
    end.

Definition lift {A} (r : result A) : M A := fun st => (r, st).

Notation "x <~ c1 ;; c2" := (bind c1 (fun x => c2))
  (at level 61, c1 at next level, right associativity).
Notation "c1 ;;; c2" := (bind c1 (fun _ => c2))
  (at level 61, right associativity).

Definition print (line : string) : M unit :=
  fun st => (Ok tt, State (stdout st ++ [line])%list (log_file st)).

(** [with open(path, "r") as _: pass] *)
Definition open_read : M unit :=
  fun st =>
    match log_file st with
    | Some _ => (Ok tt, st)
    | None => (Raise FileNotFoundError, st)
    end.

(** [open(path, "a")]: the file is created empty when it is missing. *)
Definition open_append : M unit :=
  fun st =>
    match log_file st with
    | Some _ => (Ok tt, st)
    | None => (Ok tt, State (stdout st) (Some []))
    end.

(** [w.writerow(cells)] on a file opened for appending: one more
    record after the complete records the file holds. *)
Definition writerow (cells : list cell) : M unit :=
  fun st =>
    let old := match log_file st with Some rows => rows | None => [] end in
    (Ok tt, State (stdout st) (Some (old ++ [map cell_text cells])%list)).

(** [try: c  except FileNotFoundError: h] *)
Definition catch_FileNotFoundError {A} (c : M A) (h : M A) : M A :=
  fun st =>
    match c st with
    | (Raise FileNotFoundError, st') => h st'
    | other => other
    end.

(** ** main *)

Definition header : list cell :=
  [Str "Timestamp"; Str "Profile"; Str "IP";
   Str "Downlink (Mbps)"; Str "Uplink (Mbps)"; Str "Latency (ms)";
   Str "Responsiveness"; Str "Responsiveness RPM"; Str "Idle RPM"].

(** The summary line of [main]. *)
Definition summary_line (m : metrics) : string :=
  "📊 Down: " ++ fmt (down m) 3 ++ " Mbps " ++ emoji_for_down (down m)
  ++ " | Up: " ++ fmt (up m) 3 ++ " Mbps " ++ emoji_for_up (up m)
  ++ " | Latency: " ++ fmt (latency_ms m) 3 ++ " ms "
  ++ emoji_for_latency (latency_ms m)
  ++ " | Resp: " ++ resp_label m ++ " " ++ emoji_for_resp (resp_label m).

(** The [row] list of [main]. *)
Definition log_row (timestamp profile ip : string) (m : metrics)
    : list cell :=
  [Str timestamp; Str profile; Str ip;
   Str (fmt (down m) 3); Str (fmt (up m) 3); Str (fmt (latency_ms m) 3);
   Str (resp_label m);
   match resp_rpm m with Some n => Int n | None => Str "" end;
   match idle_rpm m with Some n => Int n | None => Str "" end].

(** [sys.argv[1] if len(sys.argv) > 1 else "Unknown"] *)
Definition profile_of (w : world) : string :=
  match argv w with
  | _ :: p :: _ => p
  | _ => "Unknown"
  end.

Definition main (max_str_digits : nat) (w : world) : M unit :=
  let profile := profile_of w in
  print ("Running VPN performance test for profile: " ++ profile) ;;;
  print "-------------------------------------------" ;;;
  raw <~ lift (run w ["networkQuality"; "-v"]) ;;
  metrics <~ lift (parse_network_quality max_str_digits raw) ;;
  ip <~ lift (get_external_ip w 3) ;;
  print "✅ Logged results to ./vpn_performance.csv" ;;;
  print (summary_line metrics) ;;;
  let timestamp := now w in
  write_header <~
    catch_FileNotFoundError (open_read ;;; ret false) (ret true) ;;
  open_append ;;;
  (if write_header : bool then writerow header else ret tt) ;;;
  writerow (log_row timestamp profile ip metrics).


(** ** Definitions used to state the properties *)

(** Every character of [s] satisfies [p]. *)
Fixpoint str_forall (p : ascii -> bool) (s : string) : bool :=
  match s with
  | EmptyString => true
  | String c s' => (p c && str_forall p s')%bool
  end.

(** Does every match of [r] bind group [n]? *)
Fixpoint binds (n : nat) (r : regex) : bool :=
  match r with
  | Group k r' => (Nat.eqb k n || binds n r')%bool
  | Seq r1 r2 => (binds n r1 || binds n r2)%bool
  | Alt r1 r2 => (binds n r1 && binds n r2)%bool
  | NonCapturing r' => binds n r'
  | _ => false
  end.

(** Every group numbered [n] inside [r] captures a text satisfying [P]. *)
Fixpoint group_sat (icase : bool) (n : nat) (P : string -> Prop) (r : regex)
    : Prop :=
  match r with
  | Group k r' =>
      (k = n -> forall s g w, In w (ways icase r' s g) -> P (consumed w))
      /\ group_sat icase n P r'
  | Seq r1 r2 | Alt r1 r2 => group_sat icase n P r1 /\ group_sat icase n P r2
  | NonCapturing r' => group_sat icase n P r'
  | _ => True
  end.

(** Character by character, [v] is [p] up to what the matcher lets pass
    for a literal. *)
Fixpoint lit_eqb (icase : bool) (p v : string) : bool :=
  match p, v with
  | EmptyString, EmptyString => true
  | String a p', String c v' =>
      (atom_match icase (Lit a) c && lit_eqb icase p' v')%bool
  | _, _ => false
  end.

Definition is_number_char (c : ascii) : bool :=
  (is_digit c || ascii_eqb c "."%char)%bool.

(** What group 1 of the three capacity and latency patterns can hold. *)
Definition number_text (v : string) : Prop :=
  str_forall is_number_char v = true /\ v <> EmptyString.

(** What group 1 of the two RPM patterns can hold. *)
Definition digit_text (v : string) : Prop :=
  all_digits v = true /\ v <> EmptyString.

(** What group 1 of the label pattern can hold. *)
Definition label_text (v : string) : Prop :=
  title v = "High" \/ title v = "Medium" \/ title v = "Low".

(** A test on all 256 characters. *)
Definition forall_bool (f : bool -> bool) : bool := (f true && f false)%bool.

Definition forall_ascii (p : ascii -> bool) : bool :=
  forall_bool (fun b0 => forall_bool (fun b1 => forall_bool (fun b2 =>
  forall_bool (fun b3 => forall_bool (fun b4 => forall_bool (fun b5 =>
  forall_bool (fun b6 => forall_bool (fun b7 =>
    p (Ascii b0 b1 b2 b3 b4 b5 b6 b7))))))))).

(** The value [v] of a field comes from [pat] through [conv]: absent
    when the pattern does not occur in the text, the converted group 1
    of the match when it does. *)
Definition field_from {A} (text : string) (pat : regex)
    (conv : string -> result A) (v : option A) : Prop :=
  match search pat text IGNORECASE with
  | None => v = None
  | Some m => exists g x, group m 1 = Some g /\ conv g = Ok x /\ v = Some x
  end.

(** The pattern occurs and converting its group 1 raises [e]. *)
Definition field_fails {A} (text : string) (pat : regex)
    (conv : string -> result A) (e : exn) : Prop :=
  exists m g,
    search pat text IGNORECASE = Some m /\ group m 1 = Some g
    /\ conv g = Raise e.

(** The three steps of [main] that can raise, in its order: the
    measurement, the extraction, the address. *)
Definition measure (max_str_digits : nat) (w : world)
    : result (metrics * string) :=
  raw <- run w ["networkQuality"; "-v"] ;;
  metrics <- parse_network_quality max_str_digits raw ;;
  ip <- get_external_ip w 3 ;;
  Ok (metrics, ip).

(** The record a run appends to the log, when it gets that far. *)
Definition run_row (max_str_digits : nat) (w : world) : result row :=
  mi <- measure max_str_digits w ;;
  Ok (map cell_text (log_row (now w) (profile_of w) (snd mi) (fst mi))).

(** What a run prints before measuring, and after. *)
Definition banner (w : world) : list string :=
  ["Running VPN performance test for profile: " ++ profile_of w;
   "-------------------------------------------"].

Definition report (m : metrics) : list string :=
  ["✅ Logged results to ./vpn_performance.csv"; summary_line m].

Definition header_row : row := map cell_text header.

(** The log after a run that produced [r], or raised. *)
Definition log_after (r : result row) (f : option (list row))
    : option (list row) :=
  match r with
  | Ok r =>
      Some (match f with Some old => old | None => [header_row] end ++ [r])%list
  | Raise _ => f
  end.

(** The same world, with another exit status for the measurement. *)
Definition with_status (w : world) (status : Z) : world :=
  World (argv w)
        (fun cmd => p <- spawn w cmd ;; Ok (Completed status (output p)))
        (http_get w) (now w).

(** The rational number a finite float stands for. *)
Definition F2Q (x : float) : Q :=
  match x with
  | S754_finite s m e => (inject_Z (cond_Zopp s (Zpos m)) * 2 ^ e)%Q
  | _ => 0%Q
  end.

(** How a float stands to an integer on the extended real line; [None]
    for NaN. *)
Definition compare_int (x : float) (n : Z) : option comparison :=
  match x with
  | S754_nan => None
  | S754_infinity s => Some (if s then Lt else Gt)
  | _ => Some (F2Q x ?= inject_Z n)%Q
  end.

(** [x > n], [x < n], [x >= n], [x <= n] read on that line. *)
Definition gt_int (x : float) (n : Z) : Prop := compare_int x n = Some Gt.
Definition lt_int (x : float) (n : Z) : Prop := compare_int x n = Some Lt.
Definition ge_int (x : float) (n : Z) : Prop :=
  compare_int x n = Some Gt \/ compare_int x n = Some Eq.
Definition le_int (x : float) (n : Z) : Prop :=
  compare_int x n = Some Lt \/ compare_int x n = Some Eq.

(** A float the interpreter can hold: a binary64 number. *)
Definition valid (x : float) : Prop := valid_binary prec emax x = true.

Definition valid_opt (x : option float) : Prop :=
  match x with
  | Some f => valid f
  | None => True
  end.

(** The limits [sys.set_int_max_str_digits] accepts: none, or at least
    the threshold 640. *)
Definition legal_limit (lim : nat) : Prop := lim = 0%nat \/ (640 <= lim)%nat.

(** A world to try things in: the measurement ends with [status] after
    printing [out], the address service answers. *)
Definition sample_world (status : Z) (out : string) : world :=
  World ["vpn_benchmark.py"; "Home"]
        (fun _ => Ok (Completed status out))
        (fun _ _ => Ok "203.0.113.7")
        "2024-05-01 10:00:00".




(** Lower-casing carried over groups, ways of matching and matches. *)
Definition lower_groups (g : groups) : groups :=
  map (fun kv => (fst kv, str_lower (snd kv))) g.

Definition lower_way (w : way) : way :=
  Way (str_lower (consumed w)) (str_lower (rest w)) (lower_groups (caps w)).

Definition lower_match (m : match_obj) : match_obj :=
  Match (m_start m) (str_lower (m_text m)) (lower_groups (m_groups m)).

(** One of the three words of the label pattern, in any case. *)
Definition label_word (v : string) : Prop :=
  exists p, In p ["High"; "Medium"; "Low"] /\ lit_eqb true p v = true.

(** An exponent that is the canonical one for its mantissa. *)
Definition canon (m e : Z) : Prop := e = fexp prec emax (Zdigits2 m + e).

(** Zero, a positive number or plus infinity: no minus sign and no NaN. *)
Definition is_nonneg (x : float) : Prop :=
  match x with
  | S754_zero false | S754_infinity false | S754_finite false _ _ => True
  | _ => False
  end.




(** [v] is a contiguous piece of [s]. *)
Definition piece_of (v s : string) : Prop := exists a b, s = a ++ v ++ b.

(** The number a list of decimal digits stands for, most significant
    digit first, continuing from [acc]. *)
Fixpoint uint_value (acc : Z) (d : Decimal.uint) : Z :=
  match d with
  | Decimal.Nil => acc
  | Decimal.D0 d' => uint_value (10 * acc + 0) d'
  | Decimal.D1 d' => uint_value (10 * acc + 1) d'
  | Decimal.D2 d' => uint_value (10 * acc + 2) d'
  | Decimal.D3 d' => uint_value (10 * acc + 3) d'
  | Decimal.D4 d' => uint_value (10 * acc + 4) d'
  | Decimal.D5 d' => uint_value (10 * acc + 5) d'
  | Decimal.D6 d' => uint_value (10 * acc + 6) d'
  | Decimal.D7 d' => uint_value (10 * acc + 7) d'
  | Decimal.D8 d' => uint_value (10 * acc + 8) d'
  | Decimal.D9 d' => uint_value (10 * acc + 9) d'
  end.

(** A decimal text with a whole part and exactly three decimals. *)
Definition three_decimals (t : string) : Prop :=
  exists a b,
    t = a ++ "." ++ b /\ digit_text a /\ all_digits b = true
    /\ String.length b = 3%nat.

(** The first and the last character of a text, if it has any. *)
Definition first_char (s : string) : option ascii :=
  match s with
  | EmptyString => None
  | String c _ => Some c
  end.

Fixpoint last_char (s : string) : option ascii :=
  match s with
  | EmptyString => None
  | String c EmptyString => Some c
  | String _ s' => last_char s'
  end.


(** * Properties *)

(** ** The matcher *)

Lemma forall_bool_spec (f : bool -> bool) :
  forall_bool f = true -> forall b, f b = true.
Proof.
  unfold forall_bool. intros H b.
  apply andb_true_iff in H. destruct H, b; assumption.
Qed.

Lemma forall_ascii_spec (p : ascii -> bool) :
  forall_ascii p = true -> forall c, p c = true.
Proof.
  intros H [b0 b1 b2 b3 b4 b5 b6 b7]. unfold forall_ascii in H.
  pose proof (forall_bool_spec _ H b0) as H0; cbv beta in H0.
  pose proof (forall_bool_spec _ H0 b1) as H1; cbv beta in H1.
  pose proof (forall_bool_spec _ H1 b2) as H2; cbv beta in H2.
  pose proof (forall_bool_spec _ H2 b3) as H3; cbv beta in H3.
  pose proof (forall_bool_spec _ H3 b4) as H4; cbv beta in H4.
  pose proof (forall_bool_spec _ H4 b5) as H5; cbv beta in H5.
  pose proof (forall_bool_spec _ H5 b6) as H6; cbv beta in H6.
  exact (forall_bool_spec _ H6 b7).
Qed.

(** A repetition consumes characters of its atom only, at least [lo] of
    them, and leaves the groups as they were. *)
Lemma rep_ways_spec (ic gr : bool) (a : atom) (s : string) :
  forall (lo : nat) (g : groups) (w : way),
    In w (rep_ways ic gr a lo s g) ->
    caps w = g
    /\ str_forall (atom_match ic a) (consumed w) = true
    /\ (lo <= String.length (consumed w))%nat.
Proof.
  induction s as [|c s IH]; intros lo g w H; simpl in H.
  - destruct lo; simpl in H; [|contradiction].
    destruct H as [<-|[]]; simpl; auto.
  - assert (Hstop : In w (match lo with O => [Way "" (String c s) g]
                                   | S _ => [] end) ->
                    caps w = g
                    /\ str_forall (atom_match ic a) (consumed w) = true
                    /\ (lo <= String.length (consumed w))%nat).
    { destruct lo; simpl; [|contradiction].
      intros [<-|[]]; simpl; auto. }
    assert (Hmore : In w (map (extend c) (rep_ways ic gr a (pred lo) s g)) ->
                    atom_match ic a c = true ->
                    caps w = g
                    /\ str_forall (atom_match ic a) (consumed w) = true
                    /\ (lo <= String.length (consumed w))%nat).
    { intros Hin Hc. apply in_map_iff in Hin. destruct Hin as (w' & <- & Hw').
      destruct (IH _ _ _ Hw') as (Hg & Hall & Hlen). simpl.
      rewrite Hc, Hall. repeat split; auto. lia. }
    destruct (atom_match ic a c) eqn:Hc; [|auto].
    destruct gr; apply in_app_or in H; destruct H; auto.
Qed.

(** A group that is bound stays bound. *)
Lemma ways_keeps (ic : bool) (n : nat) (r : regex) :
  forall s g w,
    In w (ways ic r s g) -> lookup n g <> None -> lookup n (caps w) <> None.
Proof.
  induction r as [|a|r1 IH1 r2 IH2|r1 IH1 r2 IH2|gr lo a|k r IH|r IH];
    intros s g w H Hg; simpl in H.
  - destruct H as [<-|[]]; assumption.
  - destruct s as [|c s]; [contradiction|].
    destruct (atom_match ic a c); [|contradiction].
    destruct H as [<-|[]]; assumption.
  - apply in_flat_map in H. destruct H as (w1 & H1 & H).
    apply in_map_iff in H. destruct H as (w2 & <- & H2). simpl.
    eapply IH2; [eassumption|]. eapply IH1; eassumption.
  - apply in_app_or in H. destruct H; [eapply IH1|eapply IH2]; eassumption.
  - apply rep_ways_spec in H. destruct H as (-> & _). assumption.
  - apply in_map_iff in H. destruct H as (w' & <- & H'). simpl.
    destruct (Nat.eqb k n); [discriminate|]. eapply IH; eassumption.
  - eapply IH; eassumption.
Qed.

(** A pattern that [binds] a group leaves it bound in every match. *)
Lemma ways_binds (ic : bool) (n : nat) (r : regex) :
  forall s g w,
    binds n r = true -> In w (ways ic r s g) -> lookup n (caps w) <> None.
Proof.
  induction r as [|a|r1 IH1 r2 IH2|r1 IH1 r2 IH2|gr lo a|k r IH|r IH];
    intros s g w Hb H; simpl in Hb, H; try discriminate.
  - apply in_flat_map in H. destruct H as (w1 & H1 & H).
    apply in_map_iff in H. destruct H as (w2 & <- & H2). simpl.
    apply orb_true_iff in Hb. destruct Hb as [Hb|Hb].
    + eapply ways_keeps; [eassumption|]. eapply IH1; eassumption.
    + eapply IH2; eassumption.
  - apply andb_true_iff in Hb. destruct Hb as [Hb1 Hb2].
    apply in_app_or in H. destruct H; [eapply IH1|eapply IH2]; eassumption.
  - apply in_map_iff in H. destruct H as (w' & <- & H'). simpl.
    destruct (Nat.eqb k n) eqn:Hk; [discriminate|].
    simpl in Hb. eapply IH; eassumption.
  - eapply IH; eassumption.
Qed.

(** What a group holds after a match is what one of its occurrences in
    the pattern consumed. *)
Lemma ways_group_sat (ic : bool) (n : nat) (P : string -> Prop) (r : regex) :
  forall s g w,
    group_sat ic n P r ->
    (forall v, lookup n g = Some v -> P v) ->
    In w (ways ic r s g) ->
    forall v, lookup n (caps w) = Some v -> P v.
Proof.
  induction r as [|a|r1 IH1 r2 IH2|r1 IH1 r2 IH2|gr lo a|k r IH|r IH];
    intros s g w Hs Hg H v Hv; simpl in Hs, H.
  - destruct H as [<-|[]]; auto.
  - destruct s as [|c s]; [contradiction|].
    destruct (atom_match ic a c); [|contradiction].
    destruct H as [<-|[]]; auto.
  - destruct Hs as [Hs1 Hs2].
    apply in_flat_map in H. destruct H as (w1 & H1 & H).
    apply in_map_iff in H. destruct H as (w2 & <- & H2). simpl in Hv.
    eapply (IH2 _ _ _ Hs2); [|eassumption|eassumption].
    intros v' Hv'. eapply (IH1 _ _ _ Hs1); eassumption.
  - destruct Hs as [Hs1 Hs2].
    apply in_app_or in H. destruct H; [eapply IH1|eapply IH2]; eassumption.
  - apply rep_ways_spec in H. destruct H as (Hc & _).
    rewrite Hc in Hv. auto.
  - destruct Hs as [Hk Hs].
    apply in_map_iff in H. destruct H as (w' & <- & H'). simpl in Hv.
    destruct (Nat.eqb k n) eqn:Hkn.
    + apply Nat.eqb_eq in Hkn. injection Hv as <-. eapply Hk; eassumption.
    + eapply IH; eassumption.
  - eapply IH; eassumption.
Qed.

(** A successful search reports the first way of matching at some
    suffix of the text. *)
Lemma search_from_ways (ic : bool) (r : regex) (s : string) :
  forall pos m,
    search_from ic r pos s = Some m ->
    exists s' w, In w (ways ic r s' []) /\ m_groups m = caps w.
Proof.
  induction s as [|c s IH]; intros pos m H; simpl in H.
  - destruct (ways ic r "" []) as [|w l] eqn:Hw; [discriminate|].
    injection H as <-. exists "", w. rewrite Hw. simpl. auto.
  - destruct (ways ic r (String c s) []) as [|w l] eqn:Hw.
    + eapply IH; eassumption.
    + injection H as <-. exists (String c s), w. rewrite Hw. simpl. auto.
Qed.

(** Group 1 of a match: bound, and holding what the pattern lets it. *)
Lemma search_group1 (P : string -> Prop) (r : regex) (text : string)
    (flags : bool) (m : match_obj) :
  binds 1 r = true ->
  group_sat flags 1 P r ->
  search r text flags = Some m ->
  exists v, group m 1 = Some v /\ P v.
Proof.
  intros Hb Hs H. unfold search in H.
  apply search_from_ways in H. destruct H as (s' & w & Hw & Hm).
  unfold group. rewrite Hm.
  destruct (lookup 1 (caps w)) as [v|] eqn:Hv.
  - exists v. split; [reflexivity|].
    eapply ways_group_sat; try eassumption. simpl. discriminate.
  - exfalso. eapply ways_binds; eassumption.
Qed.

(** ** The six patterns *)

Lemma ascii_eqb_eq (a b : ascii) : ascii_eqb a b = true -> a = b.
Proof.
  unfold ascii_eqb, code. intros H. apply N.eqb_eq in H.
  rewrite <- (ascii_N_embedding a), <- (ascii_N_embedding b). congruence.
Qed.

(** Under IGNORECASE a letter of the pattern is matched by that letter
    only, in either case. *)
Lemma ci_letter (p c : ascii) :
  is_ascii_letter p = true ->
  atom_match true (Lit p) c = true ->
  is_ascii_letter c = true /\ lower c = lower p
  /\ upper_ascii c = upper_ascii p.
Proof.
  intros Hp Hc.
  assert (Hall :
    forall_ascii (fun p => forall_ascii (fun c =>
      implb (is_ascii_letter p && atom_match true (Lit p) c)
            (is_ascii_letter c && ascii_eqb (lower c) (lower p)
             && ascii_eqb (upper_ascii c) (upper_ascii p)))) = true)
    by (vm_compute; reflexivity).
  pose proof (forall_ascii_spec _ (forall_ascii_spec _ Hall p) c) as H.
  cbv beta in H. rewrite Hp, Hc in H. simpl in H.
  apply andb_true_iff in H. destruct H as [H H3].
  apply andb_true_iff in H. destruct H as [H1 H2].
  auto using ascii_eqb_eq.
Qed.

(** Under IGNORECASE the class [[\d.]] still holds digits and the point
    only, and [\d] digits only. *)
Lemma number_class (c : ascii) :
  atom_match true (Class [Digit; Ch "."%char]) c = true ->
  is_number_char c = true.
Proof.
  assert (Hall :
    forall_ascii (fun c =>
      implb (atom_match true (Class [Digit; Ch "."%char]) c)
            (is_number_char c)) = true)
    by (vm_compute; reflexivity).
  intros Hc. pose proof (forall_ascii_spec _ Hall c) as H.
  cbv beta in H. rewrite Hc in H. exact H.
Qed.

Lemma digit_class (ic : bool) (c : ascii) :
  atom_match ic (Class [Digit]) c = is_digit c.
Proof. simpl. apply orb_false_r. Qed.

Lemma str_forall_impl (p q : ascii -> bool) (s : string) :
  (forall c, p c = true -> q c = true) ->
  str_forall p s = true -> str_forall q s = true.
Proof.
  intros Hpq. induction s as [|c s IH]; simpl; [reflexivity|].
  intros H. apply andb_true_iff in H. destruct H as [Hc Hs].
  rewrite (Hpq _ Hc), (IH Hs). reflexivity.
Qed.

Lemma str_forall_digits (s : string) : str_forall is_digit s = all_digits s.
Proof. induction s as [|c s IH]; simpl; [|rewrite IH]; reflexivity. Qed.

Lemma nonempty_length (s : string) :
  (1 <= String.length s)%nat -> s <> EmptyString.
Proof. destruct s; simpl; [lia|discriminate]. Qed.

Lemma number1_consumed (s : string) (g : groups) (w : way) :
  In w (ways true number1 s g) -> number_text (consumed w).
Proof.
  intros H. apply rep_ways_spec in H. destruct H as (_ & Hall & Hlen).
  split; [|apply nonempty_length; assumption].
  eapply str_forall_impl; [apply number_class|assumption].
Qed.

Lemma digits1_consumed (s : string) (g : groups) (w : way) :
  In w (ways true digits1 s g) -> digit_text (consumed w).
Proof.
  intros H. apply rep_ways_spec in H. destruct H as (_ & Hall & Hlen).
  split; [|apply nonempty_length; assumption].
  rewrite <- str_forall_digits.
  eapply str_forall_impl; [|eassumption].
  intros c Hc. rewrite digit_class in Hc. exact Hc.
Qed.

(** A literal consumes itself, up to case when the flag is set. *)
Lemma ways_lit (ic : bool) (p : string) :
  forall s g w, In w (ways ic (lit p) s g) -> lit_eqb ic p (consumed w) = true.
Proof.
  induction p as [|a p IH]; intros s g w H.
  - simpl in H. destruct H as [<-|[]]. reflexivity.
  - destruct p as [|b p'].
    + cbn [lit ways] in H. destruct s as [|c s]; [contradiction|].
      destruct (atom_match ic (Lit a) c) eqn:Hc; [|contradiction].
      destruct H as [<-|[]]. cbn [consumed lit_eqb]. rewrite Hc. reflexivity.
    + change (lit (String a (String b p')))
        with (Seq (One (Lit a)) (lit (String b p'))) in H.
      cbn [ways] in H. destruct s as [|c s]; [contradiction|].
      destruct (atom_match ic (Lit a) c) eqn:Hc; [|contradiction].
      cbn [flat_map rest caps consumed] in H. rewrite app_nil_r in H.
      apply in_map_iff in H. destruct H as (w2 & <- & H2).
      cbn [consumed append lit_eqb]. rewrite Hc. simpl.
      eapply IH; eassumption.
Qed.

Lemma group_sat_lit (ic : bool) (n : nat) (P : string -> Prop) (p : string) :
  group_sat ic n P (lit p).
Proof.
  induction p as [|a p IH]; [exact I|].
  destruct p as [|b p']; [exact I|].
  change (lit (String a (String b p')))
    with (Seq (One (Lit a)) (lit (String b p'))).
  simpl group_sat. split; [exact I|exact IH].
Qed.

(** [str.title] does not see the case of the letters it is given. *)
Lemma title_from_lit (p : string) :
  forall v b,
    str_forall is_ascii_letter p = true ->
    lit_eqb true p v = true ->
    title_from b v = title_from b p.
Proof.
  induction p as [|a p IH]; intros [|c v] b Hp Hv; simpl in Hv;
    try discriminate; [reflexivity|].
  simpl in Hp. apply andb_true_iff in Hp. destruct Hp as [Ha Hp].
  apply andb_true_iff in Hv. destruct Hv as [Hc Hv].
  destruct (ci_letter a c Ha Hc) as (Hl & Hlo & Hup).
  simpl. rewrite Hl, Ha, Hlo, Hup, (IH v true Hp Hv). reflexivity.
Qed.

Lemma label_consumed (s : string) (g : groups) (w : way) :
  In w (ways true (Alt (lit "High") (Alt (lit "Medium") (lit "Low"))) s g) ->
  label_text (consumed w).
Proof.
  intros H. cbn [ways] in H.
  apply in_app_or in H. destruct H as [H|H]; [|apply in_app_or in H; destruct H as [H|H]];
    apply ways_lit in H; unfold label_text, title;
    pose proof (fun Hp => title_from_lit _ _ false Hp H) as T;
    rewrite (T eq_refl); auto.
Qed.

Lemma pat_down_group1 : group_sat IGNORECASE 1 number_text pat_down.
Proof.
  unfold pat_down. cbn [seq group_sat].
  repeat match goal with |- _ /\ _ => split end;
    try apply group_sat_lit; try exact I.
  intros _ s g w H. eapply number1_consumed; eassumption.
Qed.

Lemma pat_up_group1 : group_sat IGNORECASE 1 number_text pat_up.
Proof.
  unfold pat_up. cbn [seq group_sat].
  repeat match goal with |- _ /\ _ => split end;
    try apply group_sat_lit; try exact I.
  intros _ s g w H. eapply number1_consumed; eassumption.
Qed.

Lemma pat_latency_group1 : group_sat IGNORECASE 1 number_text pat_latency.
Proof.
  unfold pat_latency. cbn [seq group_sat].
  repeat match goal with |- _ /\ _ => split end;
    try apply group_sat_lit; try exact I.
  intros _ s g w H. eapply number1_consumed; eassumption.
Qed.

Lemma pat_idle_rpm_group1 : group_sat IGNORECASE 1 digit_text pat_idle_rpm.
Proof.
  unfold pat_idle_rpm. cbn [seq group_sat].
  repeat match goal with |- _ /\ _ => split end;
    try apply group_sat_lit; try exact I.
  intros _ s g w H. eapply digits1_consumed; eassumption.
Qed.

Lemma pat_resp_rpm_group1 : group_sat IGNORECASE 1 digit_text pat_resp_rpm.
Proof.
  unfold pat_resp_rpm. cbn [seq group_sat].
  repeat match goal with |- _ /\ _ => split end;
    try apply group_sat_lit; try exact I.
  intros _ s g w H. eapply digits1_consumed; eassumption.
Qed.

Lemma pat_resp_label_group1 :
  group_sat IGNORECASE 1 label_text pat_resp_label.
Proof.
  unfold pat_resp_label. cbn [seq group_sat].
  repeat match goal with |- _ /\ _ => split end;
    try apply group_sat_lit; try exact I.
  intros _ s g w H. eapply label_consumed; eassumption.
Qed.

(** ** Conversions of what was captured *)

Lemma py_int_digit_text (lim : nat) (v : string) :
  digit_text v ->
  py_int lim v =
  if (negb (Nat.eqb lim 0) && Nat.ltb lim (String.length v))%bool
  then Raise ValueError else Ok (decimal_value 0 v).
Proof.
  intros [Hd Hne]. unfold py_int. rewrite Hd.
  destruct v; [contradiction|reflexivity].
Qed.

Lemma label_text_default (v : string) :
  label_text v ->
  or_default (Some (title v)) "Unknown" = title v /\ title v <> "Unknown".
Proof.
  intros [H|[H|H]]; rewrite H; split; try reflexivity; discriminate.
Qed.

(** ** The three [grab_*] helpers *)

Lemma grab_float_ok (text : string) (pat : regex) (v : option float) :
  grab_float text pat = Ok v -> field_from text pat py_float v.
Proof.
  unfold grab_float, field_from, with_group1.
  destruct (search pat text IGNORECASE) as [m|]; [|congruence].
  destruct (group m 1) as [g|]; [|discriminate].
  destruct (py_float g) as [x|e] eqn:Hx; simpl; [|discriminate].
  intros H. injection H as <-. eauto.
Qed.

Lemma grab_int_ok (lim : nat) (text : string) (pat : regex) (v : option Z) :
  grab_int lim text pat = Ok v -> field_from text pat (py_int lim) v.
Proof.
  unfold grab_int, field_from, with_group1.
  destruct (search pat text IGNORECASE) as [m|]; [|congruence].
  destruct (group m 1) as [g|]; [|discriminate].
  destruct (py_int lim g) as [x|e] eqn:Hx; simpl; [|discriminate].
  intros H. injection H as <-. eauto.
Qed.

Lemma grab_float_raise (text : string) (pat : regex) (e : exn) :
  binds 1 pat = true ->
  grab_float text pat = Raise e -> field_fails text pat py_float e.
Proof.
  unfold grab_float, field_fails, with_group1. intros Hb.
  destruct (search pat text IGNORECASE) as [m|] eqn:Hm; [|discriminate].
  assert (Hs : group_sat IGNORECASE 1 (fun _ => True) pat)
    by (clear; induction pat; simpl; auto).
  destruct (@search_group1 (fun _ => True) pat text IGNORECASE m Hb Hs Hm)
    as (g & Hg & _).
  rewrite Hg. destruct (py_float g) as [x|e'] eqn:Hx; simpl; [discriminate|].
  intros H. injection H as <-. eauto.
Qed.

Lemma grab_int_raise (lim : nat) (text : string) (pat : regex) (e : exn) :
  binds 1 pat = true ->
  grab_int lim text pat = Raise e -> field_fails text pat (py_int lim) e.
Proof.
  unfold grab_int, field_fails, with_group1. intros Hb.
  destruct (search pat text IGNORECASE) as [m|] eqn:Hm; [|discriminate].
  assert (Hs : group_sat IGNORECASE 1 (fun _ => True) pat)
    by (clear; induction pat; simpl; auto).
  destruct (@search_group1 (fun _ => True) pat text IGNORECASE m Hb Hs Hm)
    as (g & Hg & _).
  rewrite Hg. destruct (py_int lim g) as [x|e'] eqn:Hx; simpl; [discriminate|].
  intros H. injection H as <-. eauto.
Qed.

(** The label never raises, and is one of the three words when the
    pattern occurs. *)
Lemma grab_label_spec (text : string) :
  match search pat_resp_label text IGNORECASE with
  | None => grab_label text pat_resp_label = Ok None
  | Some m =>
      exists g, group m 1 = Some g /\ label_text g
                /\ grab_label text pat_resp_label = Ok (Some (title g))
  end.
Proof.
  unfold grab_label, with_group1.
  destruct (search pat_resp_label text IGNORECASE) as [m|] eqn:Hm;
    [|reflexivity].
  destruct (@search_group1 label_text pat_resp_label text IGNORECASE m
              eq_refl pat_resp_label_group1 Hm) as (g & Hg & Hl).
  exists g. rewrite Hg. auto.
Qed.

(** ** parse_network_quality *)

Lemma parse_ok_inv (lim : nat) (text : string) (r : metrics) :
  parse_network_quality lim text = Ok r ->
  grab_float text pat_down = Ok (down r)
  /\ grab_float text pat_up = Ok (up r)
  /\ grab_float text pat_latency = Ok (latency_ms r)
  /\ grab_int lim text pat_idle_rpm = Ok (idle_rpm r)
  /\ grab_int lim text pat_resp_rpm = Ok (resp_rpm r)
  /\ exists l, grab_label text pat_resp_label = Ok l
               /\ resp_label r = or_default l "Unknown".
Proof.
  unfold parse_network_quality.
  destruct (grab_float text pat_down); [|discriminate].
  destruct (grab_float text pat_up); [|discriminate].
  destruct (grab_float text pat_latency); [|discriminate].
  destruct (grab_int lim text pat_idle_rpm); [|discriminate].
  destruct (grab_label text pat_resp_label); [|discriminate].
  destruct (grab_int lim text pat_resp_rpm); [|discriminate].
  simpl. intros H. injection H as <-. simpl. eauto 10.
Qed.

Lemma parse_raise_inv (lim : nat) (text : string) (e : exn) :
  parse_network_quality lim text = Raise e ->
  grab_float text pat_down = Raise e
  \/ grab_float text pat_up = Raise e
  \/ grab_float text pat_latency = Raise e
  \/ grab_int lim text pat_idle_rpm = Raise e
  \/ grab_int lim text pat_resp_rpm = Raise e.
Proof.
  unfold parse_network_quality.
  destruct (grab_float text pat_down);
    [|simpl; intros H; injection H as <-; auto].
  destruct (grab_float text pat_up);
    [|simpl; intros H; injection H as <-; auto].
  destruct (grab_float text pat_latency);
    [|simpl; intros H; injection H as <-; auto].
  destruct (grab_int lim text pat_idle_rpm);
    [|simpl; intros H; injection H as <-; auto].
  pose proof (grab_label_spec text) as Hl.
  destruct (grab_label text pat_resp_label) as [l|e'].
  - destruct (grab_int lim text pat_resp_rpm); simpl; [discriminate|].
    intros H. injection H as <-. do 4 right. reflexivity.
  - exfalso. destruct (search pat_resp_label text IGNORECASE);
      [destruct Hl as (g & _ & _ & Hl)|]; discriminate.
Qed.

(** What a returned record holds, field by field. *)
Lemma parse_ok_fields (lim : nat) (text : string) (r : metrics) :
  parse_network_quality lim text = Ok r ->
  field_from text pat_down py_float (down r)
  /\ field_from text pat_up py_float (up r)
  /\ field_from text pat_latency py_float (latency_ms r)
  /\ field_from text pat_idle_rpm (py_int lim) (idle_rpm r)
  /\ field_from text pat_resp_rpm (py_int lim) (resp_rpm r)
  /\ (resp_label r = "Unknown"
      <-> search pat_resp_label text IGNORECASE = None)
  /\ (forall m, search pat_resp_label text IGNORECASE = Some m ->
        exists g, group m 1 = Some g /\ resp_label r = title g).
Proof.
  intros H. apply parse_ok_inv in H.
  destruct H as (Hd & Hu & Hl & Hi & Hr & l & Hlab & Hdef).
  repeat match goal with |- _ /\ _ => split end;
    try (apply grab_float_ok; assumption);
    try (apply grab_int_ok; assumption).
  - pose proof (grab_label_spec text) as Hs.
    destruct (search pat_resp_label text IGNORECASE) as [m|].
    + destruct Hs as (g & Hg & Ht & Hs). rewrite Hs in Hlab.
      injection Hlab as <-. destruct (label_text_default Ht) as [E N].
      rewrite Hdef, E. split; [contradiction|discriminate].
    + rewrite Hs in Hlab. injection Hlab as <-. rewrite Hdef.
      split; reflexivity.
  - intros m Hm. pose proof (grab_label_spec text) as Hs.
    rewrite Hm in Hs. destruct Hs as (g & Hg & Ht & Hs).
    rewrite Hs in Hlab. injection Hlab as <-.
    exists g. split; [assumption|].
    rewrite Hdef. apply (label_text_default Ht).
Qed.

(** The label of a returned record is one of four words. *)
Lemma resp_label_values (lim : nat) (text : string) (r : metrics) :
  parse_network_quality lim text = Ok r ->
  In (resp_label r) ["Unknown"; "High"; "Medium"; "Low"].
Proof.
  intros H. apply parse_ok_inv in H.
  destruct H as (_ & _ & _ & _ & _ & l & Hlab & Hdef).
  pose proof (grab_label_spec text) as Hs.
  destruct (search pat_resp_label text IGNORECASE) as [m|].
  - destruct Hs as (g & Hg & Ht & Hs). rewrite Hs in Hlab.
    injection Hlab as <-. destruct (label_text_default Ht) as [E N].
    rewrite Hdef, E. simpl.
    destruct Ht as [Ht|[Ht|Ht]]; rewrite Ht; auto.
  - rewrite Hs in Hlab. injection Hlab as <-. rewrite Hdef. simpl. auto.
Qed.

(** Why the extractor raises, when it does. *)
Lemma parse_raise_fields (lim : nat) (text : string) (e : exn) :
  parse_network_quality lim text = Raise e ->
  field_fails text pat_down py_float e
  \/ field_fails text pat_up py_float e
  \/ field_fails text pat_latency py_float e
  \/ field_fails text pat_idle_rpm (py_int lim) e
  \/ field_fails text pat_resp_rpm (py_int lim) e.
Proof.
  intros H. apply parse_raise_inv in H.
  destruct H as [H|[H|[H|[H|H]]]].
  - left. apply grab_float_raise; [reflexivity|assumption].
  - right; left. apply grab_float_raise; [reflexivity|assumption].
  - do 2 right; left. apply grab_float_raise; [reflexivity|assumption].
  - do 3 right; left. apply grab_int_raise; [reflexivity|assumption].
  - do 4 right. apply grab_int_raise; [reflexivity|assumption].
Qed.


(** A run of digits shorter than the threshold converts under every
    legal limit. *)
Lemma py_int_short (lim : nat) (v : string) :
  legal_limit lim -> digit_text v -> (String.length v <= 640)%nat ->
  py_int lim v = Ok (decimal_value 0 v).
Proof.
  intros Hl Hd Hlen. rewrite (py_int_digit_text lim Hd).
  destruct Hl as [->|Hl]; [reflexivity|].
  replace (Nat.ltb lim (String.length v)) with false
    by (symmetry; apply Nat.ltb_ge; lia).
  rewrite andb_false_r. reflexivity.
Qed.

Lemma grab_int_found (lim : nat) (text : string) (pat : regex)
    (m : match_obj) (g : string) (n : Z) :
  search pat text IGNORECASE = Some m -> group m 1 = Some g ->
  py_int lim g = Ok n ->
  grab_int lim text pat = Ok (Some n).
Proof.
  intros Hm Hg Hn. unfold grab_int, with_group1. rewrite Hm, Hg, Hn.
  reflexivity.
Qed.

(** ** The samples of the specification *)

(** C5.  On "Responsiveness: Medium (208.467 milliseconds | 287 RPM)"
    the extractor returns the label "Medium" and the responsiveness RPM
    287, the number in front of "RPM" and not a piece of the
    milliseconds value; nothing else is found. *)
Theorem parse_responsiveness_sample (lim : nat) :
  legal_limit lim ->
  parse_network_quality lim
    "Responsiveness: Medium (208.467 milliseconds | 287 RPM)"
  = Ok (Metrics None None None "Medium" (Some 287) None).
Proof.
  intros Hl. unfold parse_network_quality.
  set (text := "Responsiveness: Medium (208.467 milliseconds | 287 RPM)").
  assert (Hd : grab_float text pat_down = Ok None)
    by (vm_compute; reflexivity).
  assert (Hu : grab_float text pat_up = Ok None)
    by (vm_compute; reflexivity).
  assert (Hlat : grab_float text pat_latency = Ok None)
    by (vm_compute; reflexivity).
  assert (Hi : grab_int lim text pat_idle_rpm = Ok None)
    by (vm_compute; reflexivity).
  assert (Hlab : grab_label text pat_resp_label = Ok (Some "Medium"))
    by (vm_compute; reflexivity).
  assert (Hr : grab_int lim text pat_resp_rpm = Ok (Some 287)).
  { apply grab_int_found with
      (m := Match 0 "Responsiveness: Medium (208.467 milliseconds | 287 RPM"
                  [(1%nat, "287")])
      (g := "287"); [vm_compute; reflexivity|reflexivity|].
    apply (py_int_short (v := "287") Hl); [split; [reflexivity|discriminate]|].
    simpl; lia. }
  rewrite Hd, Hu, Hlat, Hi, Hlab, Hr. reflexivity.
Qed.

Lemma parse_responsiveness_sample_witness :
  legal_limit default_max_str_digits
  /\ parse_network_quality default_max_str_digits
       "Responsiveness: Medium (208.467 milliseconds | 287 RPM)"
     = Ok (Metrics None None None "Medium" (Some 287) None).
Proof.
  assert (H : legal_limit default_max_str_digits)
    by (right; unfold default_max_str_digits; lia).
  split; [exact H|exact (parse_responsiveness_sample H)].
Defined.

(** C10.  The extractor is not total: on "Downlink capacity: . Mbps" the
    downlink pattern occurs, its group 1 is the lone point [[\d.]+]
    accepts, and [float] raises [ValueError] on it; so not every text
    yields a record. *)
Theorem parse_network_quality_not_total (lim : nat) :
  (exists m, search pat_down "Downlink capacity: . Mbps" IGNORECASE = Some m
             /\ group m 1 = Some "."
             /\ py_float "." = Raise ValueError)
  /\ parse_network_quality lim "Downlink capacity: . Mbps" = Raise ValueError
  /\ ~ (forall text, exists r, parse_network_quality lim text = Ok r).
Proof.
  assert (H : parse_network_quality lim "Downlink capacity: . Mbps"
              = Raise ValueError) by (vm_compute; reflexivity).
  split; [|split].
  - eexists. split; [vm_compute; reflexivity|]. split; reflexivity.
  - exact H.
  - intros Hall. destruct (Hall "Downlink capacity: . Mbps") as [r Hr].
    rewrite H in Hr. discriminate.
Qed.

(** ** Text *)

Lemma append_assoc (a b c : string) : (a ++ b) ++ c = a ++ (b ++ c).
Proof. induction a as [|x a IH]; simpl; [|rewrite IH]; reflexivity. Qed.

Lemma append_empty_r (a : string) : a ++ "" = a.
Proof. induction a as [|x a IH]; simpl; [|rewrite IH]; reflexivity. Qed.

Lemma lstrip_spec (s : string) :
  exists pre,
    s = pre ++ lstrip s /\ str_forall is_space pre = true
    /\ match lstrip s with
       | String c _ => is_space c = false
       | EmptyString => True
       end.
Proof.
  induction s as [|c s IH]; simpl.
  - exists "". auto.
  - destruct (is_space c) eqn:Hc.
    + destruct IH as (pre & Hs & Hpre & Hhd).
      exists (String c pre). simpl. rewrite Hc, Hpre, <- Hs. auto.
    + exists "". simpl. auto.
Qed.

Lemma rstrip_spec (s : string) :
  exists post,
    s = rstrip s ++ post /\ str_forall is_space post = true
    /\ rstrip (rstrip s) = rstrip s
    /\ match s, rstrip s with
       | String c _, String d _ => c = d
       | String c _, EmptyString => is_space c = true
       | EmptyString, _ => True
       end.
Proof.
  induction s as [|c s IH]; simpl.
  - exists "". auto.
  - destruct IH as (post & Hs & Hpost & Hidem & _).
    destruct (rstrip s) as [|d t] eqn:Hr.
    + destruct (is_space c) eqn:Hc.
      * exists (String c post). simpl in *. rewrite Hc, Hpost.
        repeat split; auto. congruence.
      * exists post. simpl in *. rewrite Hc.
        repeat split; auto. congruence.
    + exists post. simpl in *. rewrite Hidem.
      repeat split; auto. congruence.
Qed.

(** [strip] takes white space, and only white space, off both ends. *)
Lemma strip_spec (s : string) :
  exists pre post,
    s = pre ++ strip s ++ post
    /\ str_forall is_space pre = true /\ str_forall is_space post = true
    /\ lstrip (strip s) = strip s /\ rstrip (strip s) = strip s.
Proof.
  unfold strip.
  destruct (lstrip_spec s) as (pre & Hs & Hpre & Hhd).
  destruct (rstrip_spec (lstrip s)) as (post & Ht & Hpost & Hidem & Hfst).
  exists pre, post. repeat split; auto.
  - rewrite <- Ht. exact Hs.
  - destruct (lstrip s) as [|c t]; [reflexivity|].
    destruct (rstrip (String c t)) as [|d u]; [reflexivity|].
    subst d. simpl. rewrite Hhd. reflexivity.
Qed.

Lemma rstrip_last (s : string) (c : ascii) :
  last_char (rstrip s) = Some c -> is_space c = false.
Proof.
  induction s as [|a s IH]; cbn [rstrip]; [discriminate|].
  destruct (rstrip s) as [|d t].
  - destruct (is_space a) eqn:Ha; cbn [last_char]; [discriminate|].
    intros H. injection H as <-. exact Ha.
  - cbn [last_char]. exact IH.
Qed.

(** What [strip] returns neither starts nor ends with white space. *)
Lemma strip_ends (s : string) :
  (forall c, first_char (strip s) = Some c -> is_space c = false)
  /\ (forall c, last_char (strip s) = Some c -> is_space c = false).
Proof.
  unfold strip. split; [|intros c; apply rstrip_last].
  intros c Hc.
  destruct (lstrip_spec s) as (_ & _ & _ & Hhd).
  destruct (rstrip_spec (lstrip s)) as (_ & _ & _ & _ & Hfst).
  destruct (lstrip s) as [|a t]; [discriminate Hc|].
  destruct (rstrip (String a t)) as [|d u]; [discriminate Hc|].
  injection Hc as <-. subst d. exact Hhd.
Qed.

(** ** run and get_external_ip *)

Lemma run_returns_output (w : world) (cmd : list string) (status : Z)
    (out : string) :
  spawn w cmd = Ok (Completed status out) -> run w cmd = Ok out.
Proof.
  intros H. unfold run, check_output. rewrite H. simpl.
  destruct (Z.eqb status 0); reflexivity.
Qed.

(** ** main *)

(** [main] in one step: what it prints and what it leaves in the log,
    according to whether measuring raised. *)
Lemma main_spec (lim : nat) (w : world) (st : state) :
  main lim w st =
  match measure lim w with
  | Ok (m, ip) =>
      (Ok tt,
       State (stdout st ++ banner w ++ report m)
             (log_after
                (Ok (map cell_text (log_row (now w) (profile_of w) ip m)))
                (log_file st)))
  | Raise e => (Raise e, State (stdout st ++ banner w) (log_file st))
  end%list.
Proof.
  unfold main, measure, bind, lift, print, banner, report.
  destruct st as [out f]. cbn [stdout log_file].
  destruct (run w ["networkQuality"; "-v"]) as [raw|e]; cbn [rbind];
    [|rewrite <- app_assoc; reflexivity].
  destruct (parse_network_quality lim raw) as [m|e]; cbn [rbind];
    [|rewrite <- app_assoc; reflexivity].
  destruct (get_external_ip w 3) as [ip|e]; cbn [rbind];
    [|rewrite <- app_assoc; reflexivity].
  unfold catch_FileNotFoundError, open_read, open_append, writerow, ret,
    log_after, header_row.
  cbn [stdout log_file].
  destruct f as [old|]; cbn [stdout log_file app];
    repeat rewrite <- app_assoc; reflexivity.
Qed.

Lemma main_log (lim : nat) (w : world) (st : state) :
  log_file (snd (main lim w st)) = log_after (run_row lim w) (log_file st).
Proof.
  rewrite main_spec. unfold run_row.
  destruct (measure lim w) as [[m ip]|e]; reflexivity.
Qed.

(** C4.  When the measurement command ends with a non-zero status,
    [check_output] raises but [run] returns the captured output all the
    same, and the status changes nothing in what [main] does: [main]
    parses that output and, unless a capture found in it fails to
    convert, goes on to the address, the four printed lines and the log
    row built from the parsed record.  In that record every field whose
    pattern the output lacks is absent and the label "Unknown"; an
    output with none of the six patterns gives the all-absent record. *)
Theorem nonzero_exit_is_parsed (lim : nat) (w : world) (status : Z)
    (out : string) :
  status <> 0 ->
  spawn w ["networkQuality"; "-v"] = Ok (Completed status out) ->
  check_output w ["networkQuality"; "-v"]
    = Raise (CalledProcessError status out)
  /\ run w ["networkQuality"; "-v"] = Ok out
  /\ (forall st,
        main lim w st
        = match parse_network_quality lim out with
          | Ok m =>
              match get_external_ip w 3 with
              | Ok ip =>
                  (Ok tt,
                   State (stdout st ++ banner w ++ report m)
                         (log_after
                            (Ok (map cell_text
                                   (log_row (now w) (profile_of w) ip m)))
                            (log_file st)))
              | Raise e =>
                  (Raise e, State (stdout st ++ banner w) (log_file st))
              end
          | Raise e => (Raise e, State (stdout st ++ banner w) (log_file st))
          end%list)
  /\ (forall st, main lim w st = main lim (with_status w 0) st)
  /\ (forall m, parse_network_quality lim out = Ok m ->
        field_from out pat_down py_float (down m)
        /\ field_from out pat_up py_float (up m)
        /\ field_from out pat_latency py_float (latency_ms m)
        /\ field_from out pat_idle_rpm (py_int lim) (idle_rpm m)
        /\ field_from out pat_resp_rpm (py_int lim) (resp_rpm m)
        /\ (resp_label m = "Unknown"
            <-> search pat_resp_label out IGNORECASE = None))
  /\ (forall e, parse_network_quality lim out = Raise e ->
        field_fails out pat_down py_float e
        \/ field_fails out pat_up py_float e
        \/ field_fails out pat_latency py_float e
        \/ field_fails out pat_idle_rpm (py_int lim) e
        \/ field_fails out pat_resp_rpm (py_int lim) e)
  /\ (search pat_down out IGNORECASE = None ->
      search pat_up out IGNORECASE = None ->
      search pat_latency out IGNORECASE = None ->
      search pat_idle_rpm out IGNORECASE = None ->
      search pat_resp_label out IGNORECASE = None ->
      search pat_resp_rpm out IGNORECASE = None ->
      parse_network_quality lim out
      = Ok (Metrics None None None "Unknown" None None)).
Proof.
  intros Hs Hw.
  assert (Hrun : run w ["networkQuality"; "-v"] = Ok out)
    by (eapply run_returns_output; eassumption).
  assert (Hm : measure lim w
               = (m <- parse_network_quality lim out ;;
                  ip <- get_external_ip w 3 ;; Ok (m, ip)))
    by (unfold measure; rewrite Hrun; reflexivity).
  repeat match goal with |- _ /\ _ => split end.
  - unfold check_output. rewrite Hw. simpl.
    destruct (Z.eqb_spec status 0); [contradiction|reflexivity].
  - exact Hrun.
  - intros st. rewrite main_spec, Hm.
    destruct (parse_network_quality lim out) as [m|e]; cbn [rbind];
      [|reflexivity].
    destruct (get_external_ip w 3) as [ip|e]; reflexivity.
  - intros st. rewrite !main_spec.
    assert (Hm0 : measure lim (with_status w 0) = measure lim w).
    { rewrite Hm. unfold measure.
      rewrite (@run_returns_output (with_status w 0) _ 0 out);
        [reflexivity|]. simpl. rewrite Hw. reflexivity. }
    rewrite Hm0. reflexivity.
  - intros m H.
    destruct (@parse_ok_fields _ _ _ H) as (A & B & C & D & E & F & _).
    auto 7.
  - intros e H. apply parse_raise_fields. exact H.
  - intros H1 H2 H3 H4 H5 H6.
    unfold parse_network_quality, grab_float, grab_int, grab_label.
    rewrite H1, H2, H3, H4, H5, H6. reflexivity.
Qed.

(** C8.  Whatever goes wrong with the address lookup (any exception of
    class [Exception]: no route, an HTTP error, the 3-second timeout, a
    body that does not decode), [get_external_ip] returns "N/A" and
    raises nothing; when the lookup succeeds it returns the body with
    the white space around it, and nothing else, taken off: what is cut
    at either end is white space, and the result neither starts nor ends
    with a white-space character. *)
Theorem get_external_ip_fallback (w : world) (timeout : Z) :
  (forall e,
      http_get w "https://api.ipify.org" timeout = Raise e ->
      is_Exception e = true ->
      get_external_ip w timeout = Ok "N/A")
  /\ (forall body,
        http_get w "https://api.ipify.org" timeout = Ok body ->
        get_external_ip w timeout = Ok (strip body)
        /\ (exists pre post,
              body = pre ++ strip body ++ post
              /\ str_forall is_space pre = true
              /\ str_forall is_space post = true
              /\ lstrip (strip body) = strip body
              /\ rstrip (strip body) = strip body)
        /\ (forall c, first_char (strip body) = Some c -> is_space c = false)
        /\ (forall c, last_char (strip body) = Some c -> is_space c = false))
  /\ is_Exception TimeoutError = true
  /\ is_Exception URLError = true
  /\ is_Exception UnicodeDecodeError = true.
Proof.
  split; [|split; [|repeat split]].
  - intros e H He. unfold get_external_ip. rewrite H, He. reflexivity.
  - intros body H. split; [|split; [apply strip_spec|apply strip_ends]].
    unfold get_external_ip. rewrite H. reflexivity.
Qed.

Lemma nonzero_exit_is_parsed_witness :
  1 <> 0
  /\ run (sample_world 1 "networkQuality: no network")
         ["networkQuality"; "-v"]
     = Ok "networkQuality: no network".
Proof.
  assert (H : 1 <> 0) by lia.
  split; [exact H|].
  exact (proj1 (proj2
    (@nonzero_exit_is_parsed default_max_str_digits
       (sample_world 1 "networkQuality: no network") 1
       "networkQuality: no network" H eq_refl))).
Defined.

(** An interrupt is not an [Exception] and goes through. *)
Lemma get_external_ip_interrupt (w : world) (timeout : Z) :
  http_get w "https://api.ipify.org" timeout = Raise KeyboardInterrupt ->
  get_external_ip w timeout = Raise KeyboardInterrupt.
Proof. intros H. unfold get_external_ip. rewrite H. reflexivity. Qed.

(** C9.  In the summary line and in the log row alike an absent
    downlink, uplink or latency is written "0.000" (and marked red),
    while an absent responsiveness RPM or idle RPM is written as the
    empty text in the log row; these are the line [main] prints and the
    row it appends. *)
Theorem absent_metrics_rendering (ts profile ip : string) (m : metrics) :
  (forall nd, fmt None nd = "0.000")
  /\ (down m = None ->
        nth_error (map cell_text (log_row ts profile ip m)) 3 = Some "0.000"
        /\ exists tl,
             summary_line m = "📊 Down: 0.000 Mbps 🔴 | Up: " ++ tl)
  /\ (up m = None ->
        nth_error (map cell_text (log_row ts profile ip m)) 4 = Some "0.000"
        /\ exists hd tl,
             summary_line m
             = hd ++ " | Up: 0.000 Mbps 🔴 | Latency: " ++ tl)
  /\ (latency_ms m = None ->
        nth_error (map cell_text (log_row ts profile ip m)) 5 = Some "0.000"
        /\ exists hd tl,
             summary_line m
             = hd ++ " | Latency: 0.000 ms 🔴 | Resp: " ++ tl)
  /\ (resp_rpm m = None ->
        nth_error (map cell_text (log_row ts profile ip m)) 7 = Some "")
  /\ (idle_rpm m = None ->
        nth_error (map cell_text (log_row ts profile ip m)) 8 = Some "")
  /\ (forall lim w st,
        measure lim w = Ok (m, ip) ->
        main lim w st
        = (Ok tt,
           State (stdout st ++ banner w ++ report m)
                 (log_after
                    (Ok (map cell_text
                           (log_row (now w) (profile_of w) ip m)))
                    (log_file st)))%list).
Proof.
  repeat match goal with |- _ /\ _ => split end.
  - reflexivity.
  - intros H. unfold summary_line. simpl. rewrite H. simpl.
    split; [reflexivity|]. eexists. reflexivity.
  - intros H. unfold summary_line. simpl. rewrite H. simpl fmt.
    split; [reflexivity|].
    exists ("📊 Down: " ++ fmt (down m) 3 ++ " Mbps "
            ++ emoji_for_down (down m)).
    eexists. rewrite !append_assoc. reflexivity.
  - intros H. unfold summary_line. simpl. rewrite H. simpl fmt.
    split; [reflexivity|].
    exists ("📊 Down: " ++ fmt (down m) 3 ++ " Mbps "
            ++ emoji_for_down (down m)
            ++ " | Up: " ++ fmt (up m) 3 ++ " Mbps " ++ emoji_for_up (up m)).
    eexists. rewrite !append_assoc. reflexivity.
  - intros H. simpl. rewrite H. reflexivity.
  - intros H. simpl. rewrite H. reflexivity.
  - intros lim w st H. rewrite main_spec, H. reflexivity.
Qed.

(** ** The log over several runs *)


(** A run that raises before it reaches the log leaves the file as it
    found it. *)
Lemma main_raise_keeps_log (lim : nat) (w : world) (st : state) (e : exn) :
  run_row lim w = Raise e -> log_file (snd (main lim w st)) = log_file st.
Proof. intros H. rewrite main_log, H. reflexivity. Qed.








(** ** Floats *)

Lemma digits2_pos_size (m : positive) : digits2_pos m = Pos.size m.
Proof. induction m as [m IH|m IH|]; simpl; [rewrite IH..|]; reflexivity. Qed.

(** A mantissa of [d] binary digits lies in [2^(d-1), 2^d). *)
Lemma digits2_pos_bounds (m : positive) :
  2 ^ (Zpos (digits2_pos m) - 1) <= Zpos m < 2 ^ Zpos (digits2_pos m).
Proof.
  rewrite digits2_pos_size.
  pose proof (Pos.size_gt m) as Hgt. pose proof (Pos.size_le m) as Hle.
  apply Pos2Z.pos_lt_pos in Hgt. apply Pos2Z.pos_le_pos in Hle.
  rewrite Pos2Z.inj_pow in Hgt, Hle.
  change (Zpos m~0) with (2 * Zpos m) in Hle.
  replace (Zpos (Pos.size m)) with (Z.succ (Zpos (Pos.size m) - 1)) in Hle
    by lia.
  rewrite Z.pow_succ_r in Hle by lia. lia.
Qed.

(** What [bounded] says of a binary64 mantissa and exponent. *)
Lemma bounded_spec (m : positive) (e : Z) :
  bounded prec emax m e = true ->
  e = Z.max (Zpos (digits2_pos m) + e - 53) (-1074) /\ e <= 971.
Proof.
  unfold bounded, canonical_mantissa, fexp, SpecFloat.emin, prec, emax.
  intros H. apply andb_true_iff in H. destruct H as [H1 H2].
  apply Z.eqb_eq in H1. apply Z.leb_le in H2. split; [|lia].
  symmetry. exact H1.
Qed.

(** Of two binary64 numbers the one with the smaller exponent is the
    smaller. *)
Lemma bounded_lt_exponent (m1 m2 : positive) (e1 e2 : Z) :
  bounded prec emax m1 e1 = true -> bounded prec emax m2 e2 = true ->
  e1 < e2 ->
  Zpos m1 < Zpos m2 * 2 ^ (e2 - e1).
Proof.
  intros H1 H2 Hlt.
  apply bounded_spec in H1. apply bounded_spec in H2.
  destruct H1 as [H1 _], H2 as [H2 _].
  pose proof (digits2_pos_bounds m1) as [_ B1].
  pose proof (digits2_pos_bounds m2) as [B2 _].
  assert (D1 : Zpos (digits2_pos m1) <= 53) by lia.
  assert (D2 : Zpos (digits2_pos m2) = 53) by lia.
  rewrite D2 in B2.
  assert (P1 : 2 ^ Zpos (digits2_pos m1) <= 2 ^ 53)
    by (apply Z.pow_le_mono_r; lia).
  assert (P2 : 2 ^ 1 <= 2 ^ (e2 - e1)) by (apply Z.pow_le_mono_r; lia).
  change (2 ^ 53) with (2 * 2 ^ (53 - 1)) in P1.
  change (2 ^ 1) with 2 in P2. nia.
Qed.

Lemma Qcompare_scaled (a b e k : Z) :
  0 <= k ->
  (inject_Z a * 2 ^ e ?= inject_Z b * 2 ^ (e + k))%Q = (a ?= b * 2 ^ k).
Proof.
  intros Hk.
  assert (Hp : (0 < 2 ^ e)%Q) by (apply Qpower_0_lt; reflexivity).
  assert (Hb : (inject_Z b * 2 ^ (e + k) == inject_Z (b * 2 ^ k) * 2 ^ e)%Q).
  { rewrite Qpower_plus by discriminate.
    rewrite inject_Z_mult, (Zpower_Qpower 2 k Hk).
    change (inject_Z 2) with 2%Q.
    generalize (2 ^ e)%Q (2 ^ k)%Q. intros p q. ring. }
  rewrite Hb.
  destruct (Z.compare_spec a (b * 2 ^ k)) as [H|H|H].
  - apply Qeq_alt. rewrite H. reflexivity.
  - apply Qlt_alt. apply Qmult_lt_compat_r; [assumption|].
    rewrite <- Zlt_Qlt. assumption.
  - apply Qgt_alt. apply Qmult_lt_compat_r; [assumption|].
    rewrite <- Zlt_Qlt. assumption.
Qed.

(** [SFcompare] on two positive binary64 numbers is the order of the
    rationals they stand for. *)
Lemma Qcompare_bounded (m1 m2 : positive) (e1 e2 : Z) :
  bounded prec emax m1 e1 = true -> bounded prec emax m2 e2 = true ->
  (F2Q (S754_finite false m1 e1) ?= F2Q (S754_finite false m2 e2))%Q
  = match e1 ?= e2 with
    | Lt => Lt
    | Gt => Gt
    | Eq => Pos.compare_cont Eq m1 m2
    end.
Proof.
  intros H1 H2. unfold F2Q, cond_Zopp.
  destruct (Z.compare_spec e1 e2) as [He|He|He].
  - subst e2. replace e1 with (e1 + 0) at 2 by lia.
    rewrite Qcompare_scaled by lia. rewrite Z.mul_1_r. reflexivity.
  - replace e2 with (e1 + (e2 - e1)) by lia.
    rewrite Qcompare_scaled by lia.
    apply Z.compare_lt_iff. apply bounded_lt_exponent; assumption.
  - rewrite <- Qcompare_antisym.
    replace e1 with (e2 + (e1 - e2)) by lia.
    rewrite Qcompare_scaled by lia.
    replace (Zpos m2 ?= Zpos m1 * 2 ^ (e1 - e2)) with Lt; [reflexivity|].
    symmetry. apply Z.compare_lt_iff. apply bounded_lt_exponent; assumption.
Qed.

Lemma F2Q_negative (m : positive) (e : Z) :
  (F2Q (S754_finite true m e) < 0)%Q.
Proof.
  unfold F2Q, cond_Zopp.
  assert (Hp : (0 < 2 ^ e)%Q) by (apply Qpower_0_lt; reflexivity).
  setoid_replace 0%Q with (0 * 2 ^ e)%Q by ring.
  apply Qmult_lt_compat_r; [assumption|reflexivity].
Qed.

Lemma F2Q_positive (m : positive) (e : Z) :
  (0 < F2Q (S754_finite false m e))%Q.
Proof.
  unfold F2Q, cond_Zopp.
  assert (Hp : (0 < 2 ^ e)%Q) by (apply Qpower_0_lt; reflexivity).
  setoid_replace 0%Q with (0 * 2 ^ e)%Q by ring.
  apply Qmult_lt_compat_r; [assumption|reflexivity].
Qed.

(** Comparing a binary64 number with the float of a positive integer is
    comparing the number it stands for with the integer. *)
Lemma SFcompare_int (x : float) (n : Z) (m : positive) (e : Z) :
  valid x ->
  float_of_int n = S754_finite false m e ->
  bounded prec emax m e = true ->
  (F2Q (S754_finite false m e) == inject_Z n)%Q ->
  SFcompare x (float_of_int n) = compare_int x n.
Proof.
  intros Hx Hn Hb Hq. rewrite Hn.
  assert (Hpos : (0 < inject_Z n)%Q)
    by (rewrite <- Hq; apply F2Q_positive).
  destruct x as [s|s|  |s mx ex]; simpl SFcompare; unfold compare_int.
  - f_equal. symmetry. apply Qlt_alt. exact Hpos.
  - destruct s; reflexivity.
  - reflexivity.
  - rewrite <- Hq. destruct s.
    + f_equal. symmetry. apply Qlt_alt.
      eapply Qlt_trans; [apply F2Q_negative|apply F2Q_positive].
    + f_equal. symmetry. apply Qcompare_bounded; assumption.
Qed.

Lemma SFcompare_antisym (x y : float) :
  SFcompare y x = option_map CompOpp (SFcompare x y).
Proof.
  destruct x as [s1|s1| |s1 m1 e1], y as [s2|s2| |s2 m2 e2]; simpl;
    try destruct s1; try destruct s2; try reflexivity;
    rewrite (Z.compare_antisym e1 e2);
    destruct (e1 ?= e2); simpl; try reflexivity;
    change (Pos.compare_cont Eq m2 m1) with (Pos.compare m2 m1);
    change (Pos.compare_cont Eq m1 m2) with (Pos.compare m1 m2);
    rewrite (Pos.compare_antisym m1 m2);
    destruct (Pos.compare m1 m2); reflexivity.
Qed.

(** The thresholds of the classifiers are exact as floats, so comparing
    with them is comparing with the integers. *)
Lemma SFcompare_threshold (x : float) (n : Z) :
  valid x -> In n [5; 20; 50; 100; 150; 300] ->
  SFcompare x (float_of_int n) = compare_int x n.
Proof.
  intros Hx Hn. simpl in Hn.
  repeat (destruct Hn as [<-|Hn];
          [eapply SFcompare_int;
           [exact Hx|vm_compute; reflexivity|vm_compute; reflexivity
           |vm_compute; reflexivity]|]).
  contradiction.
Qed.

Lemma float_gt_threshold (x : float) (n : Z) :
  valid x -> In n [5; 20; 50; 100; 150; 300] ->
  float_gt x (float_of_int n)
  = match compare_int x n with Some Gt => true | _ => false end.
Proof.
  intros Hx Hn. unfold float_gt, SFltb.
  rewrite SFcompare_antisym, (SFcompare_threshold Hx Hn).
  destruct (compare_int x n) as [[| |]|]; reflexivity.
Qed.

Lemma float_ge_threshold (x : float) (n : Z) :
  valid x -> In n [5; 20; 50; 100; 150; 300] ->
  float_ge x (float_of_int n)
  = match compare_int x n with Some (Gt | Eq) => true | _ => false end.
Proof.
  intros Hx Hn. unfold float_ge, SFleb.
  rewrite SFcompare_antisym, (SFcompare_threshold Hx Hn).
  destruct (compare_int x n) as [[| |]|]; reflexivity.
Qed.

Lemma float_lt_threshold (x : float) (n : Z) :
  valid x -> In n [5; 20; 50; 100; 150; 300] ->
  float_lt x (float_of_int n)
  = match compare_int x n with Some Lt => true | _ => false end.
Proof.
  intros Hx Hn. unfold float_lt, SFltb.
  rewrite (SFcompare_threshold Hx Hn). reflexivity.
Qed.

Lemma float_le_threshold (x : float) (n : Z) :
  valid x -> In n [5; 20; 50; 100; 150; 300] ->
  float_le x (float_of_int n)
  = match compare_int x n with Some (Lt | Eq) => true | _ => false end.
Proof.
  intros Hx Hn. unfold float_le, SFleb.
  rewrite (SFcompare_threshold Hx Hn). reflexivity.
Qed.

(** NaN is the one float that compares with no integer. *)
Lemma compare_int_none (x : float) (n k : Z) :
  compare_int x n = None -> compare_int x k = None.
Proof. destruct x; simpl; intros H; try discriminate; reflexivity. Qed.

(** Above the larger integer is not below the smaller one. *)
Lemma gt_int_not_lt (x : float) (n k : Z) :
  k <= n -> gt_int x n -> ~ lt_int x k.
Proof.
  unfold gt_int, lt_int. intros Hkn Hg Hl.
  destruct x as [s|s| |s m e]; simpl in Hg, Hl; try congruence;
    try (destruct s; discriminate);
    injection Hg as Hg; injection Hl as Hl;
    apply Qgt_alt in Hg; apply Qlt_alt in Hl;
    (assert (Hnk : (inject_Z n < inject_Z k)%Q)
       by (eapply Qlt_trans; eassumption));
    rewrite <- Zlt_Qlt in Hnk; lia.
Qed.

(** ** Classifiers *)

(** C2.  Whatever the downlink value: absent, it is marked red (poor);
    present, it is marked green (good) when above 300, yellow (caution)
    when between 100 and 300, bounds included, and red (poor) otherwise.
    So 350 is good, 150 caution, 50 poor and [None] poor. *)
Theorem emoji_for_down_tiers (x : option float) :
  valid_opt x ->
  (x = None -> emoji_for_down x = red)
  /\ (forall f, x = Some f ->
        (gt_int f 300 -> emoji_for_down x = green)
        /\ (ge_int f 100 /\ le_int f 300 -> emoji_for_down x = yellow)
        /\ (~ gt_int f 300 -> ~ (ge_int f 100 /\ le_int f 300) ->
            emoji_for_down x = red))
  /\ emoji_for_down (Some (float_of_int 350)) = green
  /\ emoji_for_down (Some (float_of_int 150)) = yellow
  /\ emoji_for_down (Some (float_of_int 50)) = red
  /\ emoji_for_down None = red.
Proof.
  intros Hx.
  split; [intros ->; reflexivity|].
  split; [|repeat split; reflexivity].
  intros f ->. simpl in Hx. unfold emoji_for_down.
  rewrite (@float_gt_threshold f 300 Hx) by (simpl; tauto).
  rewrite (@float_ge_threshold f 100 Hx) by (simpl; tauto).
  unfold gt_int, ge_int, le_int.
  split; [|split].
  - intros ->. reflexivity.
  - intros [[H1|H1] [H3|H3]]; rewrite H1, H3; reflexivity.
  - intros Hn3 Hn.
    destruct (compare_int f 300) as [[| |]|] eqn:H3;
      try (exfalso; apply Hn3; reflexivity);
      destruct (compare_int f 100) as [[| |]|] eqn:H1;
      try reflexivity;
      try (exfalso; apply Hn; split; auto; fail);
      rewrite (compare_int_none f 300 100 H3) in H1; discriminate.
Qed.

Lemma emoji_for_down_tiers_witness :
  valid_opt (Some (float_of_int 350))
  /\ emoji_for_down (Some (float_of_int 350)) = green.
Proof.
  assert (H : valid_opt (Some (float_of_int 350))) by reflexivity.
  split; [exact H|].
  refine (proj1 (proj1 (proj2 (emoji_for_down_tiers
                                 (Some (float_of_int 350)) H))
                   (float_of_int 350) eq_refl) _).
  vm_compute. reflexivity.
Defined.

(** C7.  Whatever the latency value: absent, it is marked red (poor);
    present, it is marked green (good) when below 50, yellow (caution)
    when between 50 and 150, bounds included, and red (poor) when above
    150. *)
Theorem emoji_for_latency_tiers (ms : option float) :
  valid_opt ms ->
  (ms = None -> emoji_for_latency ms = red)
  /\ (forall f, ms = Some f ->
        (lt_int f 50 -> emoji_for_latency ms = green)
        /\ (ge_int f 50 /\ le_int f 150 -> emoji_for_latency ms = yellow)
        /\ (gt_int f 150 -> emoji_for_latency ms = red)).
Proof.
  intros Hx.
  split; [intros ->; reflexivity|].
  intros f ->. simpl in Hx. unfold emoji_for_latency.
  rewrite (@float_lt_threshold f 50 Hx) by (simpl; tauto).
  rewrite (@float_le_threshold f 150 Hx) by (simpl; tauto).
  split; [|split].
  - unfold lt_int. intros ->. reflexivity.
  - unfold ge_int, le_int.
    intros [[H1|H1] [H3|H3]]; rewrite H1, H3; reflexivity.
  - intros Hg.
    assert (Hl : ~ lt_int f 50) by (eapply gt_int_not_lt; [|exact Hg]; lia).
    unfold gt_int in Hg. unfold lt_int in Hl. rewrite Hg.
    destruct (compare_int f 50) as [[| |]|]; try reflexivity.
    exfalso. apply Hl. reflexivity.
Qed.

Lemma emoji_for_latency_tiers_witness :
  valid_opt (Some (float_of_int 200))
  /\ emoji_for_latency (Some (float_of_int 200)) = red.
Proof.
  assert (H : valid_opt (Some (float_of_int 200))) by reflexivity.
  split; [exact H|].
  refine (proj2 (proj2 (proj2 (emoji_for_latency_tiers
                                 (Some (float_of_int 200)) H)
                          (float_of_int 200) eq_refl)) _).
  vm_compute. reflexivity.
Defined.

(** The float the extractor hands over is one the interpreter can hold. *)
Lemma py_float_sample_valid :
  exists x, py_float "35.624" = Ok x /\ valid x.
Proof. eexists. split; [vm_compute; reflexivity|reflexivity]. Qed.

(** C6.  On "Idle Latency: 35.624 ms" the extractor returns the latency
    35.624 (the binary64 number nearest to it, within half a unit in the
    last place) and no idle RPM, for want of the "| <int> RPM" part the
    idle-RPM pattern asks for; nothing else is found either. *)
Theorem parse_idle_latency_sample (lim : nat) :
  parse_network_quality lim "Idle Latency: 35.624 ms"
  = Ok (Metrics None None (Some (S754_finite false 5013632285170205 (-47)))
                "Unknown" None None)
  /\ py_float "35.624" = Ok (S754_finite false 5013632285170205 (-47))
  /\ (Qabs (F2Q (S754_finite false 5013632285170205 (-47))
            - (35624 # 1000))
      <= 1 # 2 ^ 48)%Q
  /\ search pat_idle_rpm "Idle Latency: 35.624 ms" IGNORECASE = None
  /\ (exists m, search pat_idle_rpm "Idle Latency: 35.624 ms | 1684 RPM"
                       IGNORECASE = Some m
                /\ group m 1 = Some "1684").
Proof.
  split; [vm_compute; reflexivity|].
  split; [vm_compute; reflexivity|].
  split; [vm_compute; discriminate|].
  split; [vm_compute; reflexivity|].
  eexists. split; vm_compute; reflexivity.
Qed.

(** * Further properties *)

(** ** emoji_for_up *)

(** Whatever the uplink value: absent, it is marked red; present, it is
    marked green when above 20, yellow when between 5 and 20, bounds
    included, and red otherwise. *)
Theorem emoji_for_up_tiers (x : option float) :
  valid_opt x ->
  (x = None -> emoji_for_up x = red)
  /\ (forall f, x = Some f ->
        (gt_int f 20 -> emoji_for_up x = green)
        /\ (ge_int f 5 /\ le_int f 20 -> emoji_for_up x = yellow)
        /\ (~ gt_int f 20 -> ~ (ge_int f 5 /\ le_int f 20) ->
            emoji_for_up x = red)).
Proof.
  intros Hx.
  split; [intros ->; reflexivity|].
  intros f ->. simpl in Hx. unfold emoji_for_up.
  rewrite (@float_gt_threshold f 20 Hx) by (simpl; tauto).
  rewrite (@float_ge_threshold f 5 Hx) by (simpl; tauto).
  unfold gt_int, ge_int, le_int.
  split; [|split].
  - intros ->. reflexivity.
  - intros [[H1|H1] [H3|H3]]; rewrite H1, H3; reflexivity.
  - intros Hn3 Hn.
    destruct (compare_int f 20) as [[| |]|] eqn:H3;
      try (exfalso; apply Hn3; reflexivity);
      destruct (compare_int f 5) as [[| |]|] eqn:H1;
      try reflexivity;
      try (exfalso; apply Hn; split; auto; fail);
      rewrite (compare_int_none f 20 5 H3) in H1; discriminate.
Qed.

Lemma emoji_for_up_tiers_witness :
  valid_opt (Some (float_of_int 7))
  /\ emoji_for_up (Some (float_of_int 7)) = yellow.
Proof.
  assert (H : valid_opt (Some (float_of_int 7))) by reflexivity.
  split; [exact H|].
  refine (proj1 (proj2 (proj2 (emoji_for_up_tiers (Some (float_of_int 7)) H)
                          (float_of_int 7) eq_refl)) _).
  split; [left|left]; vm_compute; reflexivity.
Defined.

(** ** emoji_for_resp after parse_network_quality *)

(** For a text of code points below 256, the label of a returned record
    is one of "High", "Medium", "Low" and "Unknown", however the word
    was cased in the text, and its marker is green, yellow, red and red
    in that order.  (Beyond that range [re.IGNORECASE] also lets U+0130
    and U+0131 stand for the i of the pattern, and [.title] keeps
    them.) *)
Theorem resp_label_marker (lim : nat) (text : string) (r : metrics) :
  parse_network_quality lim text = Ok r ->
  (resp_label r = "High" /\ emoji_for_resp (resp_label r) = green)
  \/ (resp_label r = "Medium" /\ emoji_for_resp (resp_label r) = yellow)
  \/ (resp_label r = "Low" /\ emoji_for_resp (resp_label r) = red)
  \/ (resp_label r = "Unknown" /\ emoji_for_resp (resp_label r) = red).
Proof.
  intros H. apply resp_label_values in H. simpl in H.
  destruct H as [H|[H|[H|[H|[]]]]]; rewrite <- H; auto 6.
Qed.

Lemma resp_label_marker_witness :
  parse_network_quality default_max_str_digits
    "RESPONSIVENESS: hIGH (12 ms | 4000 rpm)"
  = Ok (Metrics None None None "High" (Some 4000) None)
  /\ emoji_for_resp "High" = green.
Proof.
  assert (H : parse_network_quality default_max_str_digits
                "RESPONSIVENESS: hIGH (12 ms | 4000 rpm)"
              = Ok (Metrics None None None "High" (Some 4000) None))
    by (vm_compute; reflexivity).
  split; [exact H|].
  destruct (@resp_label_marker _ _ _ H) as [[_ E]|[[E _]|[[E _]|[E _]]]];
    [exact E|discriminate E..].
Defined.

(** ** What parse_network_quality raises *)

Lemma py_float_raises (v : string) (e : exn) :
  py_float v = Raise e -> e = ValueError.
Proof.
  unfold py_float. destruct (split_point v) as [ip fp].
  destruct (_ && _)%bool; [discriminate|]. intros H. injection H as <-.
  reflexivity.
Qed.

Lemma py_int_raises (lim : nat) (v : string) (e : exn) :
  py_int lim v = Raise e -> e = ValueError.
Proof.
  unfold py_int. destruct (_ && _)%bool; [destruct (_ && _)%bool|];
    try discriminate; intros H; injection H as <-; reflexivity.
Qed.

Lemma parse_raise_is_ValueError (lim : nat) (text : string) (e : exn) :
  parse_network_quality lim text = Raise e -> e = ValueError.
Proof.
  intros H. apply parse_raise_fields in H.
  destruct H as [H|[H|[H|[H|H]]]]; destruct H as (m & g & _ & _ & H);
    eauto using py_float_raises, py_int_raises.
Qed.

(** The one exception the extractor raises is [ValueError]: group 1 of
    each pattern always takes part in a match, so [float], [int] and
    [.title] are never handed [None]. *)
Theorem parse_raises_only_ValueError (lim : nat) (text : string) (e : exn) :
  parse_network_quality lim text = Raise e -> e = ValueError.
Proof. apply parse_raise_is_ValueError. Qed.

Lemma parse_raises_only_ValueError_witness :
  parse_network_quality default_max_str_digits "Uplink capacity: 1.2.3"
  = Raise ValueError
  /\ ValueError = ValueError.
Proof.
  assert (H : parse_network_quality default_max_str_digits
                "Uplink capacity: 1.2.3" = Raise ValueError)
    by (vm_compute; reflexivity).
  split; [exact H|].
  exact (@parse_raises_only_ValueError _ _ _ H).
Defined.

(** When the extractor raises, either one of the three float captures is
    not a number, or one of the two RPM captures has more digits than
    the interpreter's limit on converting text to [int]; with the limit
    switched off only the float captures can be at fault. *)
Theorem parse_raise_causes (lim : nat) (text : string) (e : exn) :
  parse_network_quality lim text = Raise e ->
  field_fails text pat_down py_float e
  \/ field_fails text pat_up py_float e
  \/ field_fails text pat_latency py_float e
  \/ (lim <> 0%nat
      /\ exists pat m g,
           (pat = pat_idle_rpm \/ pat = pat_resp_rpm)
           /\ search pat text IGNORECASE = Some m
           /\ group m 1 = Some g
           /\ digit_text g
           /\ (lim < String.length g)%nat).
Proof.
  intros H. apply parse_raise_inv in H.
  assert (Hint : forall pat,
            binds 1 pat = true -> group_sat IGNORECASE 1 digit_text pat ->
            grab_int lim text pat = Raise e ->
            lim <> 0%nat
            /\ exists m g,
                 search pat text IGNORECASE = Some m /\ group m 1 = Some g
                 /\ digit_text g /\ (lim < String.length g)%nat).
  { intros pat Hb Hs Hg. unfold grab_int, with_group1 in Hg.
    destruct (search pat text IGNORECASE) as [m|] eqn:Hm; [|discriminate].
    destruct (@search_group1 digit_text pat text IGNORECASE m Hb Hs Hm)
      as (g & Hg1 & Hd).
    rewrite Hg1, (py_int_digit_text lim Hd) in Hg.
    destruct (Nat.eqb_spec lim 0) as [->|Hl]; [discriminate|].
    destruct (Nat.ltb_spec lim (String.length g)) as [Hlt|Hge];
      [|discriminate].
    split; [assumption|]. exists m, g. auto. }
  destruct H as [H|[H|[H|[H|H]]]].
  - left. apply grab_float_raise; [reflexivity|assumption].
  - right; left. apply grab_float_raise; [reflexivity|assumption].
  - do 2 right; left. apply grab_float_raise; [reflexivity|assumption].
  - do 3 right.
    destruct (Hint pat_idle_rpm eq_refl pat_idle_rpm_group1 H)
      as (Hl & m & g & Hm & Hg & Hd & Hlen).
    split; [assumption|]. exists pat_idle_rpm, m, g. auto 6.
  - do 3 right.
    destruct (Hint pat_resp_rpm eq_refl pat_resp_rpm_group1 H)
      as (Hl & m & g & Hm & Hg & Hd & Hlen).
    split; [assumption|]. exists pat_resp_rpm, m, g. auto 6.
Qed.

Lemma parse_raise_causes_witness :
  field_fails "Uplink capacity: 1.2.3" pat_up py_float ValueError.
Proof.
  assert (H : parse_network_quality 0 "Uplink capacity: 1.2.3"
              = Raise ValueError) by (vm_compute; reflexivity).
  destruct (@parse_raise_causes _ _ _ H) as [F|[F|[F|[F _]]]].
  - exfalso. destruct F as (m & g & Hm & _). vm_compute in Hm. discriminate.
  - exact F.
  - exfalso. destruct F as (m & g & Hm & _). vm_compute in Hm. discriminate.
  - exfalso. apply F. reflexivity.
Defined.

(** ** main: what a run prints and leaves behind *)

(** When the measurement command cannot be started (no such executable,
    say), [run] lets the error through; [main] then ends with that
    error, having printed its two banner lines and nothing more, and the
    log file is neither created nor touched. *)
Theorem main_start_failure (lim : nat) (w : world) (st : state) (e : exn) :
  spawn w ["networkQuality"; "-v"] = Raise e ->
  (forall status out, e <> CalledProcessError status out) ->
  run w ["networkQuality"; "-v"] = Raise e
  /\ main lim w st = (Raise e, State (stdout st ++ banner w) (log_file st)).
Proof.
  intros Hs Hne.
  assert (Hrun : run w ["networkQuality"; "-v"] = Raise e).
  { unfold run, check_output. rewrite Hs. simpl.
    destruct e; try reflexivity. exfalso. eapply Hne. reflexivity. }
  split; [exact Hrun|].
  rewrite main_spec. unfold measure. rewrite Hrun. reflexivity.
Qed.

Lemma main_start_failure_witness :
  main default_max_str_digits
       (World ["vpn_benchmark.py"] (fun _ => Raise FileNotFoundError)
              (fun _ _ => Ok "203.0.113.7") "2024-05-01 10:00:00")
       (State [] None)
  = (Raise FileNotFoundError,
     State ["Running VPN performance test for profile: Unknown";
            "-------------------------------------------"] None).
Proof.
  refine (proj2 (@main_start_failure default_max_str_digits
                   (World ["vpn_benchmark.py"] (fun _ => Raise FileNotFoundError)
                          (fun _ _ => Ok "203.0.113.7") "2024-05-01 10:00:00")
                   (State [] None) FileNotFoundError eq_refl _)).
  intros status out. discriminate.
Defined.

(** When the extractor raises on the output of the measurement, [main]
    ends with [ValueError] after the banner: no summary line is printed
    and no row is logged for that run. *)
Theorem main_parse_failure (lim : nat) (w : world) (st : state)
    (raw : string) (e : exn) :
  run w ["networkQuality"; "-v"] = Ok raw ->
  parse_network_quality lim raw = Raise e ->
  main lim w st
  = (Raise ValueError, State (stdout st ++ banner w) (log_file st)).
Proof.
  intros Hrun Hp. rewrite main_spec. unfold measure. rewrite Hrun.
  cbn [rbind]. rewrite Hp. cbn [rbind].
  rewrite (@parse_raise_is_ValueError lim raw e Hp). reflexivity.
Qed.

Lemma main_parse_failure_witness :
  main default_max_str_digits (sample_world 0 "Downlink capacity: .")
       (State [] (Some [header_row]))
  = (Raise ValueError,
     State ["Running VPN performance test for profile: Home";
            "-------------------------------------------"]
           (Some [header_row])).
Proof.
  refine (@main_parse_failure default_max_str_digits
            (sample_world 0 "Downlink capacity: .")
            (State [] (Some [header_row])) "Downlink capacity: ."
            ValueError eq_refl _).
  vm_compute. reflexivity.
Defined.



(** ** The shape of the log *)




(** ** get_external_ip: what strip leaves *)

Lemma lstrip_blank (s : string) :
  str_forall is_space s = true -> lstrip s = "".
Proof.
  induction s as [|c s IH]; simpl; [reflexivity|].
  intros H. apply andb_true_iff in H. destruct H as [Hc Hs].
  rewrite Hc. auto.
Qed.

(** A lookup that succeeds with a blank body (empty, or white space only)
    returns the empty text, not the "N/A" of a failed lookup; and the
    address returned is stable under a further [strip]. *)
Theorem get_external_ip_blank (w : world) (timeout : Z) (body : string) :
  http_get w "https://api.ipify.org" timeout = Ok body ->
  (str_forall is_space body = true -> get_external_ip w timeout = Ok "")
  /\ (forall ip, get_external_ip w timeout = Ok ip -> strip ip = ip).
Proof.
  intros H. unfold get_external_ip. rewrite H. split.
  - intros Hb. unfold strip. rewrite (lstrip_blank _ Hb). reflexivity.
  - intros ip Hip. injection Hip as <-.
    destruct (strip_spec body) as (_ & _ & _ & _ & _ & Hl & Hr).
    unfold strip at 1. rewrite Hl. exact Hr.
Qed.

Lemma get_external_ip_blank_witness :
  get_external_ip
    (World [] (fun _ => Raise FileNotFoundError) (fun _ _ => Ok "  ") "")
    3
  = Ok "".
Proof.
  exact (proj1 (@get_external_ip_blank
                  (World [] (fun _ => Raise FileNotFoundError)
                         (fun _ _ => Ok "  ") "")
                  3 "  " eq_refl) eq_refl).
Defined.

(** ** Letter case of the measured text *)

Lemma lower_idem (c : ascii) : lower (lower c) = lower c.
Proof.
  apply ascii_eqb_eq.
  apply (forall_ascii_spec
           (fun c => ascii_eqb (lower (lower c)) (lower c))).
  vm_compute. reflexivity.
Qed.

Lemma atom_match_lower (a : atom) (c : ascii) :
  atom_match true a (lower c) = atom_match true a c.
Proof.
  destruct a as [p| |items]; simpl.
  - rewrite lower_idem. reflexivity.
  - apply Bool.eqb_prop.
    apply (forall_ascii_spec
             (fun c => Bool.eqb (negb (N.eqb (code (lower c)) 10))
                                (negb (N.eqb (code c) 10)))).
    vm_compute. reflexivity.
  - induction items as [|i items IH]; simpl; [reflexivity|].
    rewrite IH. f_equal. destruct i; simpl.
    + rewrite lower_idem. reflexivity.
    + apply Bool.eqb_prop.
      apply (forall_ascii_spec
               (fun c => Bool.eqb (is_digit (lower c)) (is_digit c))).
      vm_compute. reflexivity.
    + apply Bool.eqb_prop.
      apply (forall_ascii_spec
               (fun c => Bool.eqb (is_space (lower c)) (is_space c))).
      vm_compute. reflexivity.
Qed.

Lemma str_lower_app (a b : string) :
  str_lower (a ++ b) = str_lower a ++ str_lower b.
Proof.
  unfold str_lower. induction a as [|c a IH]; simpl; [|rewrite IH];
    reflexivity.
Qed.

Lemma rep_ways_lower (gr : bool) (a : atom) (s : string) :
  forall lo g,
    rep_ways true gr a lo (str_lower s) (lower_groups g)
    = map lower_way (rep_ways true gr a lo s g).
Proof.
  induction s as [|c s IH]; intros lo g.
  - simpl. destruct lo; reflexivity.
  - change (str_lower (String c s)) with (String (lower c) (str_lower s)).
    cbn [rep_ways]. rewrite atom_match_lower, IH.
    destruct (atom_match true a c).
    + rewrite !map_map.
      destruct gr, lo; simpl; rewrite ?map_app, ?map_map; reflexivity.
    + destruct lo; reflexivity.
Qed.

Lemma flat_map_of_map {A B C} (f : B -> list C) (g : A -> B) (l : list A) :
  flat_map f (map g l) = flat_map (fun x => f (g x)) l.
Proof. induction l as [|x l IH]; simpl; [|rewrite IH]; reflexivity. Qed.

Lemma map_of_flat_map {A B C} (g : B -> C) (f : A -> list B) (l : list A) :
  map g (flat_map f l) = flat_map (fun x => map g (f x)) l.
Proof.
  induction l as [|x l IH]; simpl; [|rewrite map_app, IH]; reflexivity.
Qed.

(** The matcher, run under IGNORECASE on the lower-cased text, finds the
    lower-cased image of what it finds on the text itself. *)
Lemma ways_lower (r : regex) :
  forall s g,
    ways true r (str_lower s) (lower_groups g)
    = map lower_way (ways true r s g).
Proof.
  induction r as [|a|r1 IH1 r2 IH2|r1 IH1 r2 IH2|gr lo a|k r IH|r IH];
    intros s g; cbn [ways].
  - reflexivity.
  - destruct s as [|c s]; [reflexivity|].
    change (str_lower (String c s)) with (String (lower c) (str_lower s)).
    cbv iota. rewrite atom_match_lower.
    destruct (atom_match true a c); reflexivity.
  - rewrite IH1, flat_map_of_map, map_of_flat_map.
    apply flat_map_ext. intros w1.
    change (rest (lower_way w1)) with (str_lower (rest w1)).
    change (caps (lower_way w1)) with (lower_groups (caps w1)).
    rewrite IH2, !map_map. apply map_ext. intros w2.
    unfold lower_way. cbn [consumed rest caps]. rewrite str_lower_app.
    reflexivity.
  - rewrite IH1, IH2, map_app. reflexivity.
  - apply rep_ways_lower.
  - rewrite IH, !map_map. reflexivity.
  - apply IH.
Qed.

Lemma search_from_unfold (ic : bool) (r : regex) (pos : nat) (s : string) :
  search_from ic r pos s
  = match ways ic r s [] with
    | w :: _ => Some (Match pos (consumed w) (caps w))
    | [] =>
        match s with
        | EmptyString => None
        | String _ s' => search_from ic r (S pos) s'
        end
    end.
Proof. destruct s; reflexivity. Qed.

Lemma search_from_lower (r : regex) (s : string) :
  forall pos,
    search_from true r pos (str_lower s)
    = option_map lower_match (search_from true r pos s).
Proof.
  induction s as [|c s IH]; intros pos;
    rewrite (search_from_unfold true r pos (str_lower _)),
      (search_from_unfold true r pos).
  - pose proof (ways_lower r "" []) as E.
    change (lower_groups []) with (@nil (nat * string)) in E.
    rewrite E. destruct (ways true r "" []); reflexivity.
  - pose proof (ways_lower r (String c s) []) as E.
    change (lower_groups []) with (@nil (nat * string)) in E.
    rewrite E. destruct (ways true r (String c s) []); [|reflexivity].
    simpl. apply IH.
Qed.

Lemma group_lower (m : match_obj) (n : nat) :
  group (lower_match m) n = option_map str_lower (group m n).
Proof.
  unfold group, lower_match. simpl.
  induction (m_groups m) as [|[k v] g IH]; simpl; [reflexivity|].
  destruct (Nat.eqb k n); [reflexivity|exact IH].
Qed.

Lemma number_char_lower (c : ascii) : is_number_char c = true -> lower c = c.
Proof.
  intros H. apply ascii_eqb_eq.
  pose proof (forall_ascii_spec
                (fun c => implb (is_number_char c) (ascii_eqb (lower c) c))
                eq_refl c) as Hall.
  cbv beta in Hall. rewrite H in Hall. exact Hall.
Qed.

Lemma number_text_lower (v : string) :
  str_forall is_number_char v = true -> str_lower v = v.
Proof.
  unfold str_lower. induction v as [|c v IH]; simpl; [reflexivity|].
  intros H. apply andb_true_iff in H. destruct H as [Hc Hv].
  rewrite (number_char_lower _ Hc), (IH Hv). reflexivity.
Qed.

Lemma digit_text_lower (v : string) : all_digits v = true -> str_lower v = v.
Proof.
  intros H. apply number_text_lower. rewrite <- str_forall_digits in H.
  eapply str_forall_impl; [|exact H].
  intros c Hc. unfold is_number_char. rewrite Hc. reflexivity.
Qed.

Lemma lit_eqb_lower (p v : string) :
  lit_eqb true p (str_lower v) = lit_eqb true p v.
Proof.
  revert v. induction p as [|a p IH]; intros [|c v]; try reflexivity.
  change (str_lower (String c v)) with (String (lower c) (str_lower v)).
  cbn [lit_eqb]. rewrite atom_match_lower, IH. reflexivity.
Qed.

Lemma label_consumed_word (s : string) (g : groups) (w : way) :
  In w (ways true (Alt (lit "High") (Alt (lit "Medium") (lit "Low"))) s g) ->
  label_word (consumed w).
Proof.
  intros H. cbn [ways] in H.
  apply in_app_or in H.
  destruct H as [H|H]; [|apply in_app_or in H; destruct H as [H|H]];
    apply ways_lit in H; unfold label_word; simpl; eauto 6.
Qed.

Lemma pat_resp_label_word :
  group_sat IGNORECASE 1 label_word pat_resp_label.
Proof.
  unfold pat_resp_label. cbn [seq group_sat].
  repeat match goal with |- _ /\ _ => split end;
    try apply group_sat_lit; try exact I.
  intros _ s g w H. eapply label_consumed_word; eassumption.
Qed.

Lemma label_word_title (v : string) :
  label_word v -> title (str_lower v) = title v.
Proof.
  intros (p & Hp & Hv). unfold title.
  assert (Hl : str_forall is_ascii_letter p = true)
    by (simpl in Hp; destruct Hp as [<-|[<-|[<-|[]]]]; reflexivity).
  rewrite (title_from_lit p v false Hl Hv).
  apply title_from_lit; [exact Hl|]. rewrite lit_eqb_lower. exact Hv.
Qed.

Lemma search_lower (r : regex) (text : string) :
  search r (str_lower text) IGNORECASE
  = option_map lower_match (search r text IGNORECASE).
Proof. apply search_from_lower. Qed.

Lemma grab_float_lower (text : string) (pat : regex) :
  binds 1 pat = true -> group_sat IGNORECASE 1 number_text pat ->
  grab_float (str_lower text) pat = grab_float text pat.
Proof.
  intros Hb Hs. unfold grab_float, with_group1. rewrite search_lower.
  destruct (search pat text IGNORECASE) as [m|] eqn:Hm; [|reflexivity].
  simpl. rewrite group_lower.
  destruct (@search_group1 number_text pat text IGNORECASE m Hb Hs Hm)
    as (g & Hg & Hn & _).
  rewrite Hg. simpl. rewrite (number_text_lower _ Hn). reflexivity.
Qed.

Lemma grab_int_lower (lim : nat) (text : string) (pat : regex) :
  binds 1 pat = true -> group_sat IGNORECASE 1 digit_text pat ->
  grab_int lim (str_lower text) pat = grab_int lim text pat.
Proof.
  intros Hb Hs. unfold grab_int, with_group1. rewrite search_lower.
  destruct (search pat text IGNORECASE) as [m|] eqn:Hm; [|reflexivity].
  simpl. rewrite group_lower.
  destruct (@search_group1 digit_text pat text IGNORECASE m Hb Hs Hm)
    as (g & Hg & Hn & _).
  rewrite Hg. simpl. rewrite (digit_text_lower _ Hn). reflexivity.
Qed.

Lemma grab_label_lower (text : string) :
  grab_label (str_lower text) pat_resp_label
  = grab_label text pat_resp_label.
Proof.
  unfold grab_label, with_group1. rewrite search_lower.
  destruct (search pat_resp_label text IGNORECASE) as [m|] eqn:Hm;
    [|reflexivity].
  simpl. rewrite group_lower.
  destruct (@search_group1 label_word pat_resp_label text IGNORECASE m
              eq_refl pat_resp_label_word Hm) as (g & Hg & Hw).
  rewrite Hg. simpl. rewrite (label_word_title Hw). reflexivity.
Qed.

(** The extractor does not look at letter case: it returns for the
    lower-cased text ([text.lower()]) exactly what it returns for the
    text, record or exception. *)
Theorem parse_network_quality_ignores_case (lim : nat) (text : string) :
  parse_network_quality lim (str_lower text)
  = parse_network_quality lim text.
Proof.
  unfold parse_network_quality.
  rewrite (@grab_float_lower text pat_down eq_refl pat_down_group1).
  rewrite (@grab_float_lower text pat_up eq_refl pat_up_group1).
  rewrite (@grab_float_lower text pat_latency eq_refl pat_latency_group1).
  rewrite (@grab_int_lower lim text pat_idle_rpm eq_refl pat_idle_rpm_group1).
  rewrite (@grab_int_lower lim text pat_resp_rpm eq_refl pat_resp_rpm_group1).
  rewrite grab_label_lower. reflexivity.
Qed.

(** ** Rounding to binary64 *)

Lemma fexp_mono (a b : Z) : a <= b -> fexp prec emax a <= fexp prec emax b.
Proof. unfold fexp, SpecFloat.emin, prec, emax. lia. Qed.

Lemma fexp_ge_emin (a : Z) : -1074 <= fexp prec emax a.
Proof. unfold fexp, SpecFloat.emin, prec, emax. lia. Qed.

Lemma fexp_above (a : Z) : a <= fexp prec emax a -> fexp prec emax a = -1074.
Proof. unfold fexp, SpecFloat.emin, prec, emax. lia. Qed.

Lemma Zdigits2_nonneg (m : Z) : 0 <= Zdigits2 m.
Proof. destruct m; simpl; lia. Qed.

Lemma Zdigits2_bounds (m : Z) :
  0 < m -> 2 ^ (Zdigits2 m - 1) <= m < 2 ^ Zdigits2 m.
Proof.
  destruct m as [|p|p]; try lia. intros _. apply digits2_pos_bounds.
Qed.

Lemma Zdigits2_unique (m k : Z) :
  0 < m -> 2 ^ (k - 1) <= m < 2 ^ k -> Zdigits2 m = k.
Proof.
  intros Hm [Hlo Hhi]. pose proof (@Zdigits2_bounds m Hm) as [Dlo Dhi].
  pose proof (Zdigits2_nonneg m) as Hd.
  assert (Hk : 0 <= k).
  { destruct (Z.lt_ge_cases k 0) as [Hk|Hk]; [|exact Hk].
    rewrite Z.pow_neg_r in Hhi by exact Hk. lia. }
  destruct (Z.lt_trichotomy (Zdigits2 m) k) as [H|[H|H]]; [|exact H|].
  - assert (2 ^ Zdigits2 m <= 2 ^ (k - 1)) by (apply Z.pow_le_mono_r; lia).
    lia.
  - assert (2 ^ k <= 2 ^ (Zdigits2 m - 1)) by (apply Z.pow_le_mono_r; lia).
    lia.
Qed.

Lemma Zdigits2_mono (a b : Z) : 0 <= a <= b -> Zdigits2 a <= Zdigits2 b.
Proof.
  intros [Ha Hab].
  destruct (Z.eq_dec a 0) as [->|Hne]; [apply Zdigits2_nonneg|].
  pose proof (@Zdigits2_bounds a ltac:(lia)) as [Alo _].
  pose proof (@Zdigits2_bounds b ltac:(lia)) as [_ Bhi].
  destruct (Z.le_gt_cases (Zdigits2 a) (Zdigits2 b)) as [H|H]; [exact H|].
  assert (2 ^ Zdigits2 b <= 2 ^ (Zdigits2 a - 1))
    by (apply Z.pow_le_mono_r; lia).
  lia.
Qed.

(** Shifting [n] bits out of a mantissa of [d] bits leaves [d - n]. *)
Lemma Zdigits2_shift (m n : Z) :
  0 < m -> 0 <= n < Zdigits2 m ->
  0 < m / 2 ^ n /\ Zdigits2 (m / 2 ^ n) = Zdigits2 m - n.
Proof.
  intros Hm Hn. pose proof (@Zdigits2_bounds m Hm) as [Dlo Dhi].
  assert (Hp : 0 < 2 ^ n) by (apply Z.pow_pos_nonneg; lia).
  assert (Hlo : 2 ^ (Zdigits2 m - n - 1) <= m / 2 ^ n).
  { apply Z.div_le_lower_bound; [exact Hp|].
    rewrite <- Z.pow_add_r by lia.
    replace (n + (Zdigits2 m - n - 1)) with (Zdigits2 m - 1) by lia.
    exact Dlo. }
  assert (Hhi : m / 2 ^ n < 2 ^ (Zdigits2 m - n)).
  { apply Z.div_lt_upper_bound; [exact Hp|].
    rewrite <- Z.pow_add_r by lia.
    replace (n + (Zdigits2 m - n)) with (Zdigits2 m) by lia. exact Dhi. }
  assert (Hq : 0 < m / 2 ^ n).
  { assert (0 < 2 ^ (Zdigits2 m - n - 1)) by (apply Z.pow_pos_nonneg; lia).
    lia. }
  split; [exact Hq|]. apply Zdigits2_unique; [exact Hq|]. split; assumption.
Qed.

Lemma shr_1_m (r : shr_record) :
  0 <= shr_m r -> shr_m (shr_1 r) = shr_m r / 2.
Proof.
  destruct r as [m rb sb]. destruct m as [|[p|p|]|p];
    cbn [shr_m shr_1]; intros Hm.
  - reflexivity.
  - apply (Z.div_unique (Zpos p~1) 2 (Zpos p) 1); lia.
  - apply (Z.div_unique (Zpos p~0) 2 (Zpos p) 0); lia.
  - reflexivity.
  - lia.
Qed.

Lemma iter_shr_1_m (p : positive) :
  forall r, 0 <= shr_m r ->
            shr_m (iter_pos shr_1 p r) = shr_m r / 2 ^ Zpos p.
Proof.
  induction p as [p IH|p IH|]; intros r Hr; simpl iter_pos.
  - assert (H1 : 0 <= shr_m (shr_1 r))
      by (rewrite shr_1_m by exact Hr; apply Z.div_pos; lia).
    assert (H2 : 0 <= shr_m (iter_pos shr_1 p (shr_1 r)))
      by (rewrite IH by exact H1; apply Z.div_pos;
          [exact H1|apply Z.pow_pos_nonneg; lia]).
    rewrite IH by exact H2. rewrite IH by exact H1. rewrite shr_1_m by exact Hr.
    assert (Hp : 0 < 2 ^ Zpos p) by (apply Z.pow_pos_nonneg; lia).
    rewrite !Z.div_div by lia.
    f_equal. replace (Zpos p~1) with (1 + Zpos p + Zpos p) by lia.
    rewrite !Z.pow_add_r by lia. change (2 ^ 1) with 2. ring.
  - assert (H2 : 0 <= shr_m (iter_pos shr_1 p r))
      by (rewrite IH by exact Hr; apply Z.div_pos;
          [exact Hr|apply Z.pow_pos_nonneg; lia]).
    rewrite IH by exact H2. rewrite IH by exact Hr.
    assert (Hp : 0 < 2 ^ Zpos p) by (apply Z.pow_pos_nonneg; lia).
    rewrite !Z.div_div by lia.
    f_equal. replace (Zpos p~0) with (Zpos p + Zpos p) by lia.
    rewrite Z.pow_add_r by lia. reflexivity.
  - rewrite shr_1_m by exact Hr. reflexivity.
Qed.

Lemma shr_record_of_loc_m (m : Z) (l : location) :
  shr_m (shr_record_of_loc m l) = m.
Proof. destruct l as [|[| |]]; reflexivity. Qed.

(** [shr_fexp] brings a mantissa with too many bits to the canonical
    exponent. *)
Lemma shr_fexp_canon (m e : Z) (l : location) :
  0 <= m -> e <= fexp prec emax (Zdigits2 m + e) ->
  let '(r, e') := shr_fexp prec emax m e l in
  0 <= shr_m r /\ shr_m r <= m /\ canon (shr_m r) e'.
Proof.
  intros Hm He. unfold shr_fexp, shr.
  set (t := fexp prec emax (Zdigits2 m + e)) in *.
  destruct (t - e) as [|n|n] eqn:Hn; try lia.
  - rewrite shr_record_of_loc_m. unfold canon. fold t. lia.
  - assert (H0 : 0 <= shr_m (shr_record_of_loc m l))
      by (rewrite shr_record_of_loc_m; exact Hm).
    rewrite (@iter_shr_1_m n _ H0), shr_record_of_loc_m.
    assert (Hp : 0 < 2 ^ Zpos n) by (apply Z.pow_pos_nonneg; lia).
    split; [apply Z.div_pos; lia|].
    split; [apply Z.div_le_upper_bound; nia|].
    unfold canon. replace (e + Zpos n) with t by lia.
    destruct (Z.eq_dec m 0) as [->|Hne].
    + rewrite Z.div_0_l by lia. simpl Zdigits2.
      symmetry. unfold t in *. simpl Zdigits2 in *.
      revert Hn He. unfold fexp, SpecFloat.emin, prec, emax. lia.
    + destruct (Z.lt_ge_cases (Zpos n) (Zdigits2 m)) as [Hlt|Hge].
      * destruct (@Zdigits2_shift m (Zpos n)) as [_ Hd]; [lia|lia|].
        rewrite Hd. replace (Zdigits2 m - Zpos n + t) with (Zdigits2 m + e)
          by lia. reflexivity.
      * pose proof (@Zdigits2_bounds m ltac:(lia)) as [_ Dhi].
        assert (2 ^ Zdigits2 m <= 2 ^ Zpos n)
          by (apply Z.pow_le_mono_r; lia).
        rewrite Z.div_small by lia. simpl Zdigits2.
        assert (Ht : t = -1074)
          by (apply fexp_above; lia).
        rewrite Ht. reflexivity.
Qed.

Lemma round_nearest_even_bounds (m : Z) (l : location) :
  m <= round_nearest_even m l <= m + 1.
Proof. destruct l as [|[| |]]; simpl; try destruct (Z.even m); lia. Qed.

(** Rounding gives a binary64 number, and never a negative one or NaN
    when the sign is positive and the mantissa not negative. *)
Lemma binary_round_aux_valid (m e : Z) (l : location) :
  0 <= m -> e <= fexp prec emax (Zdigits2 m + e) ->
  valid (binary_round_aux prec emax false m e l)
  /\ is_nonneg (binary_round_aux prec emax false m e l).
Proof.
  intros Hm He. unfold binary_round_aux.
  pose proof (@shr_fexp_canon m e l Hm He) as H1.
  destruct (shr_fexp prec emax m e l) as [r1 e1].
  destruct H1 as (H1 & _ & C1).
  set (m2 := round_nearest_even (shr_m r1) (loc_of_shr_record r1)).
  pose proof (round_nearest_even_bounds (shr_m r1) (loc_of_shr_record r1))
    as B2. fold m2 in B2.
  assert (Hm2 : 0 <= m2) by lia.
  assert (He2 : e1 <= fexp prec emax (Zdigits2 m2 + e1)).
  { unfold canon in C1. rewrite C1 at 1. apply fexp_mono.
    pose proof (@Zdigits2_mono (shr_m r1) m2 ltac:(lia)). lia. }
  pose proof (@shr_fexp_canon m2 e1 loc_Exact Hm2 He2) as H3.
  destruct (shr_fexp prec emax m2 e1 loc_Exact) as [r3 e3].
  destruct H3 as (H3 & _ & C3).
  destruct (shr_m r3) as [|p|p] eqn:Hr3; try lia.
  - split; exact I || reflexivity.
  - destruct (e3 <=? emax - prec) eqn:Hle; [|split; exact I || reflexivity].
    split; [|exact I].
    unfold valid, valid_binary, bounded, canonical_mantissa.
    rewrite Hle, andb_true_r. apply Z.eqb_eq.
    unfold canon in C3. simpl Zdigits2 in C3. symmetry. exact C3.
Qed.

(** The quotient [SFdiv_core_binary] hands to the rounding has bits to
    spare. *)
Lemma SFdiv_core_enough (n d : Z) :
  0 < n -> 0 < d ->
  let '(q, e, l) := SFdiv_core_binary prec emax n 0 d 0 in
  0 <= q /\ e <= fexp prec emax (Zdigits2 q + e).
Proof.
  intros Hn Hd. unfold SFdiv_core_binary.
  rewrite !Z.add_0_r, !Z.sub_0_r.
  set (e' := Z.min (fexp prec emax (Zdigits2 n - Zdigits2 d)) 0).
  replace (0 - e') with (- e') by lia.
  assert (He' : e' <= 0) by (unfold e'; lia).
  assert (Hm' : match - e' with
                | Z0 => n
                | Zpos _ => Z.shiftl n (- e')
                | Zneg _ => 0
                end = n * 2 ^ (- e')).
  { destruct (- e') as [|p|p] eqn:Hs; try lia.
    rewrite Z.shiftl_mul_pow2 by lia. reflexivity. }
  rewrite Hm'.
  pose proof (Z.div_eucl_eq (n * 2 ^ (- e')) d ltac:(lia)) as Heq.
  pose proof (Z.mod_pos_bound (n * 2 ^ (- e')) d Hd) as Hmod.
  unfold Z.modulo in Hmod.
  assert (Hdiv : fst (Z.div_eucl (n * 2 ^ (- e')) d) = n * 2 ^ (- e') / d)
    by reflexivity.
  destruct (Z.div_eucl (n * 2 ^ (- e')) d) as [q r]. simpl in Hdiv, Hmod.
  assert (Hp : 0 < 2 ^ (- e')) by (apply Z.pow_pos_nonneg; lia).
  assert (Hq : 0 <= q) by (rewrite Hdiv; apply Z.div_pos; nia).
  split; [exact Hq|].
  pose proof (fexp_ge_emin (Zdigits2 q + e')) as Hge.
  destruct (Z.eq_dec e' (-1074)) as [Hem|Hem]; [lia|].
  assert (Hf : fexp prec emax (Zdigits2 n - Zdigits2 d)
               = Zdigits2 n - Zdigits2 d - 53).
  { pose proof (fexp_ge_emin (Zdigits2 n - Zdigits2 d)).
    unfold e' in Hem, He' |- *. revert Hem.
    unfold fexp, SpecFloat.emin, prec, emax. lia. }
  assert (Hs : 53 - Zdigits2 n + Zdigits2 d <= - e')
    by (unfold e'; rewrite Hf; lia).
  pose proof (@Zdigits2_bounds n Hn) as [Nlo _].
  pose proof (@Zdigits2_bounds d Hd) as [_ Dhi].
  pose proof (Zdigits2_nonneg d) as Dd.
  assert (Dn : 1 <= Zdigits2 n) by (destruct n; simpl; lia).
  set (k := Zdigits2 n - 1 - e' - Zdigits2 d).
  assert (Hk : 52 <= k) by (unfold k; lia).
  assert (Hqk : 2 ^ k <= q).
  { rewrite Hdiv. apply Z.div_le_lower_bound; [exact Hd|].
    assert (Hpk : 0 < 2 ^ k) by (apply Z.pow_pos_nonneg; lia).
    assert (E : 2 ^ (Zdigits2 n - 1) * 2 ^ (- e') = 2 ^ k * 2 ^ Zdigits2 d).
    { rewrite <- !Z.pow_add_r by lia. f_equal. unfold k. lia. }
    nia. }
  assert (Hdq : k + 1 <= Zdigits2 q).
  { assert (Hpk : 0 < 2 ^ k) by (apply Z.pow_pos_nonneg; lia).
    pose proof (@Zdigits2_bounds q ltac:(lia)) as [_ Qhi].
    destruct (Z.le_gt_cases (k + 1) (Zdigits2 q)) as [H|H]; [exact H|].
    assert (2 ^ Zdigits2 q <= 2 ^ k)
      by (apply Z.pow_le_mono_r; [lia|lia]).
    lia. }
  assert (Hle : e' <= fexp prec emax (Zdigits2 n - Zdigits2 d))
    by (unfold e'; lia).
  eapply Z.le_trans; [exact Hle|]. apply fexp_mono. unfold k in Hdq. lia.
Qed.

Lemma float_of_ratio_valid (n d : Z) :
  0 <= n -> 0 < d ->
  valid (float_of_ratio n d) /\ is_nonneg (float_of_ratio n d).
Proof.
  intros Hn Hd. unfold float_of_ratio.
  destruct n as [|p|p]; [split; [reflexivity|exact I]| |lia].
  pose proof (@SFdiv_core_enough (Zpos p) d ltac:(lia) Hd) as H.
  destruct (SFdiv_core_binary prec emax (Zpos p) 0 d 0) as [[q e] l].
  destruct H as [Hq He]. apply binary_round_aux_valid; assumption.
Qed.

Lemma digit_value_range (c : ascii) :
  is_digit c = true -> 0 <= digit_value c <= 9.
Proof.
  unfold is_digit, in_range, digit_value. intros H.
  apply andb_true_iff in H. destruct H as [H1 H2].
  apply N.leb_le in H1, H2. lia.
Qed.

Lemma decimal_value_nonneg (s : string) :
  forall acc, all_digits s = true -> 0 <= acc -> 0 <= decimal_value acc s.
Proof.
  induction s as [|c s IH]; intros acc Hs Hacc; cbn [decimal_value];
    [exact Hacc|].
  cbn [all_digits] in Hs. apply andb_true_iff in Hs. destruct Hs as [Hc Hs].
  apply IH; [exact Hs|]. pose proof (digit_value_range c Hc). lia.
Qed.

Lemma all_digits_app (a b : string) :
  all_digits (a ++ b) = (all_digits a && all_digits b)%bool.
Proof.
  induction a as [|c a IH]; simpl; [reflexivity|].
  rewrite IH, andb_assoc. reflexivity.
Qed.

(** What [float] returns for digits and points is a binary64 number,
    zero or positive or plus infinity. *)
Lemma py_float_valid (v : string) (x : float) :
  py_float v = Ok x -> valid x /\ is_nonneg x.
Proof.
  unfold py_float. destruct (split_point v) as [ip fp].
  set (f := match fp with Some f => f | None => EmptyString end).
  destruct (all_digits ip && all_digits f
            && negb (Nat.eqb (String.length ip + String.length f) 0))%bool
    eqn:Hc; [|discriminate].
  intros H. injection H as <-.
  apply andb_true_iff in Hc. destruct Hc as [Hc _].
  apply float_of_ratio_valid.
  - apply decimal_value_nonneg; [|lia]. rewrite all_digits_app. exact Hc.
  - apply Z.pow_pos_nonneg; lia.
Qed.

(** ** The floats the extractor returns *)

Lemma field_from_float_valid (text : string) (pat : regex)
    (v : option float) (f : float) :
  field_from text pat py_float v -> v = Some f -> valid f /\ is_nonneg f.
Proof.
  unfold field_from. intros H ->.
  destruct (search pat text IGNORECASE) as [m|]; [|discriminate].
  destruct H as (g & x & _ & Hx & Hv). injection Hv as <-.
  eapply py_float_valid; eassumption.
Qed.

Lemma parse_floats_valid (lim : nat) (text : string) (r : metrics) (f : float) :
  parse_network_quality lim text = Ok r ->
  down r = Some f \/ up r = Some f \/ latency_ms r = Some f ->
  valid f /\ is_nonneg f.
Proof.
  intros H Hf. destruct (@parse_ok_fields _ _ _ H) as (A & B & C & _).
  destruct Hf as [Hf|[Hf|Hf]].
  - exact (@field_from_float_valid _ _ _ _ A Hf).
  - exact (@field_from_float_valid _ _ _ _ B Hf).
  - exact (@field_from_float_valid _ _ _ _ C Hf).
Qed.

(** Whatever the text, a downlink, uplink or latency the extractor
    returns is a binary64 number that is zero, positive or plus infinity:
    the patterns capture no sign, and rounding the decimal text to the
    nearest float yields neither a negative number nor NaN. *)
Theorem extracted_floats_are_numbers (lim : nat) (text : string)
    (r : metrics) (f : float) :
  parse_network_quality lim text = Ok r ->
  down r = Some f \/ up r = Some f \/ latency_ms r = Some f ->
  valid f /\ is_nonneg f.
Proof. apply parse_floats_valid. Qed.

Lemma extracted_floats_are_numbers_witness :
  valid (S754_finite false 5013632285170205 (-47))
  /\ is_nonneg (S754_finite false 5013632285170205 (-47)).
Proof.
  refine (@extracted_floats_are_numbers default_max_str_digits
            "Idle Latency: 35.624 ms"
            (Metrics None None
                     (Some (S754_finite false 5013632285170205 (-47)))
                     "Unknown" None None)
            (S754_finite false 5013632285170205 (-47)) _ _).
  - vm_compute. reflexivity.
  - right; right. reflexivity.
Defined.

Lemma compare_int_nonneg (f : float) (n : Z) :
  is_nonneg f -> exists c, compare_int f n = Some c.
Proof.
  destruct f as [s|s| |s m e]; simpl; try contradiction; eauto.
Qed.

Lemma markers_distinct :
  green <> yellow /\ green <> red /\ yellow <> red.
Proof. repeat split; discriminate. Qed.

(** A two-threshold marker where more is better, on a number. *)
Lemma upward_marker (f : float) (lo hi : Z) (mark : string) :
  lo <= hi -> is_nonneg f ->
  mark = (if match compare_int f hi with Some Gt => true | _ => false end
          then green
          else if match compare_int f lo with
                  | Some (Gt | Eq) => true
                  | _ => false
                  end
               then yellow else red) ->
  (mark = green <-> gt_int f hi)
  /\ (mark = yellow <-> ge_int f lo /\ le_int f hi)
  /\ (mark = red <-> lt_int f lo).
Proof.
  intros Hlh Hf ->. destruct markers_distinct as (Dgy & Dgr & Dyr).
  destruct (@compare_int_nonneg f hi Hf) as [ch Hh].
  destruct (@compare_int_nonneg f lo Hf) as [cl Hl].
  assert (Hx : gt_int f hi -> ~ lt_int f lo)
    by (apply gt_int_not_lt; exact Hlh).
  unfold gt_int, ge_int, le_int, lt_int in *. rewrite Hh, Hl in *.
  destruct ch, cl; repeat split; intros;
    repeat match goal with
           | H : _ /\ _ |- _ => destruct H
           | H : _ \/ _ |- _ => destruct H
           end;
    try reflexivity; try congruence; auto;
    try (exfalso; apply Hx; reflexivity).
Qed.

(** For whatever the extractor returned, the bandwidth markers of the
    summary line say exactly where the number stands: downlink green
    above 300, yellow from 100 to 300, red below 100 or absent; uplink
    green above 20, yellow from 5 to 20, red below 5 or absent. *)
Theorem bandwidth_markers_of_extracted (lim : nat) (text : string)
    (r : metrics) :
  parse_network_quality lim text = Ok r ->
  (emoji_for_down (down r) = green
   <-> exists f, down r = Some f /\ gt_int f 300)
  /\ (emoji_for_down (down r) = yellow
      <-> exists f, down r = Some f /\ ge_int f 100 /\ le_int f 300)
  /\ (emoji_for_down (down r) = red
      <-> down r = None \/ exists f, down r = Some f /\ lt_int f 100)
  /\ (emoji_for_up (up r) = green
      <-> exists f, up r = Some f /\ gt_int f 20)
  /\ (emoji_for_up (up r) = yellow
      <-> exists f, up r = Some f /\ ge_int f 5 /\ le_int f 20)
  /\ (emoji_for_up (up r) = red
      <-> up r = None \/ exists f, up r = Some f /\ lt_int f 5).
Proof.
  intros H. destruct markers_distinct as (Dgy & Dgr & Dyr).
  assert (Hd : forall f, down r = Some f -> valid f /\ is_nonneg f)
    by (intros f Hf; eapply parse_floats_valid; [exact H|auto]).
  assert (Hu : forall f, up r = Some f -> valid f /\ is_nonneg f)
    by (intros f Hf; eapply parse_floats_valid; [exact H|auto]).
  assert (Down :
    (emoji_for_down (down r) = green
     <-> exists f, down r = Some f /\ gt_int f 300)
    /\ (emoji_for_down (down r) = yellow
        <-> exists f, down r = Some f /\ ge_int f 100 /\ le_int f 300)
    /\ (emoji_for_down (down r) = red
        <-> down r = None \/ exists f, down r = Some f /\ lt_int f 100)).
  { destruct (down r) as [f|].
    - destruct (Hd f eq_refl) as [Hv Hn].
      destruct (@upward_marker f 100 300 (emoji_for_down (Some f)))
        as (G & Y & R); [lia|exact Hn| |].
      { unfold emoji_for_down.
        rewrite (@float_gt_threshold f 300 Hv) by (simpl; tauto).
        rewrite (@float_ge_threshold f 100 Hv) by (simpl; tauto).
        reflexivity. }
      repeat split.
      + intros E. exists f. split; [reflexivity|apply G; exact E].
      + intros (f' & Hf & E). injection Hf as <-. apply G; exact E.
      + intros E. exists f. split; [reflexivity|apply Y; exact E].
      + intros (f' & Hf & E). injection Hf as <-. apply Y; exact E.
      + intros E. right. exists f. split; [reflexivity|apply R; exact E].
      + intros [E|(f' & Hf & E)]; [discriminate|].
        injection Hf as <-. apply R; exact E.
    - simpl. repeat split; try (intros E; congruence); auto.
      + intros (f & Hf & _). discriminate.
      + intros (f & Hf & _). discriminate. }
  assert (Up :
    (emoji_for_up (up r) = green
     <-> exists f, up r = Some f /\ gt_int f 20)
    /\ (emoji_for_up (up r) = yellow
        <-> exists f, up r = Some f /\ ge_int f 5 /\ le_int f 20)
    /\ (emoji_for_up (up r) = red
        <-> up r = None \/ exists f, up r = Some f /\ lt_int f 5)).
  { destruct (up r) as [f|].
    - destruct (Hu f eq_refl) as [Hv Hn].
      destruct (@upward_marker f 5 20 (emoji_for_up (Some f)))
        as (G & Y & R); [lia|exact Hn| |].
      { unfold emoji_for_up.
        rewrite (@float_gt_threshold f 20 Hv) by (simpl; tauto).
        rewrite (@float_ge_threshold f 5 Hv) by (simpl; tauto).
        reflexivity. }
      repeat split.
      + intros E. exists f. split; [reflexivity|apply G; exact E].
      + intros (f' & Hf & E). injection Hf as <-. apply G; exact E.
      + intros E. exists f. split; [reflexivity|apply Y; exact E].
      + intros (f' & Hf & E). injection Hf as <-. apply Y; exact E.
      + intros E. right. exists f. split; [reflexivity|apply R; exact E].
      + intros [E|(f' & Hf & E)]; [discriminate|].
        injection Hf as <-. apply R; exact E.
    - simpl. repeat split; try (intros E; congruence); auto.
      + intros (f & Hf & _). discriminate.
      + intros (f & Hf & _). discriminate. }
  tauto.
Qed.

Lemma bandwidth_markers_of_extracted_witness :
  emoji_for_down (Some (S754_finite false 6504482091504239 (-44))) = green.
Proof.
  refine (proj2 (proj1 (@bandwidth_markers_of_extracted
                          default_max_str_digits
                          "Downlink capacity: 369.737 Mbps"
                          (Metrics
                             (Some (S754_finite false 6504482091504239 (-44)))
                             None None "Unknown" None None) _)) _).
  - vm_compute. reflexivity.
  - eexists. split; [reflexivity|]. vm_compute. reflexivity.
Defined.

(** A two-threshold marker where less is better, on a number. *)
Lemma downward_marker (f : float) (lo hi : Z) (mark : string) :
  lo <= hi -> is_nonneg f ->
  mark = (if match compare_int f lo with Some Lt => true | _ => false end
          then green
          else if match compare_int f hi with
                  | Some (Lt | Eq) => true
                  | _ => false
                  end
               then yellow else red) ->
  (mark = green <-> lt_int f lo)
  /\ (mark = yellow <-> ge_int f lo /\ le_int f hi)
  /\ (mark = red <-> gt_int f hi).
Proof.
  intros Hlh Hf ->. destruct markers_distinct as (Dgy & Dgr & Dyr).
  destruct (@compare_int_nonneg f hi Hf) as [ch Hh].
  destruct (@compare_int_nonneg f lo Hf) as [cl Hl].
  assert (Hx : gt_int f hi -> ~ lt_int f lo)
    by (apply gt_int_not_lt; exact Hlh).
  unfold gt_int, ge_int, le_int, lt_int in *. rewrite Hh, Hl in *.
  destruct ch, cl; repeat split; intros;
    repeat match goal with
           | H : _ /\ _ |- _ => destruct H
           | H : _ \/ _ |- _ => destruct H
           end;
    try reflexivity; try congruence; auto;
    try (exfalso; apply Hx; reflexivity).
Qed.

(** For whatever the extractor returned, the latency marker of the
    summary line is green exactly below 50, yellow exactly from 50 to
    150, and red exactly above 150 or when the latency is absent. *)
Theorem latency_marker_of_extracted (lim : nat) (text : string)
    (r : metrics) :
  parse_network_quality lim text = Ok r ->
  (emoji_for_latency (latency_ms r) = green
   <-> exists f, latency_ms r = Some f /\ lt_int f 50)
  /\ (emoji_for_latency (latency_ms r) = yellow
      <-> exists f, latency_ms r = Some f /\ ge_int f 50 /\ le_int f 150)
  /\ (emoji_for_latency (latency_ms r) = red
      <-> latency_ms r = None
          \/ exists f, latency_ms r = Some f /\ gt_int f 150).
Proof.
  intros H. destruct markers_distinct as (Dgy & Dgr & Dyr).
  assert (Hd : forall f, latency_ms r = Some f -> valid f /\ is_nonneg f)
    by (intros f Hf; eapply parse_floats_valid; [exact H|auto]).
  destruct (latency_ms r) as [f|].
  - destruct (Hd f eq_refl) as [Hv Hn].
    destruct (@downward_marker f 50 150 (emoji_for_latency (Some f)))
      as (G & Y & R); [lia|exact Hn| |].
    { unfold emoji_for_latency.
      rewrite (@float_lt_threshold f 50 Hv) by (simpl; tauto).
      rewrite (@float_le_threshold f 150 Hv) by (simpl; tauto).
      reflexivity. }
    repeat split.
    + intros E. exists f. split; [reflexivity|apply G; exact E].
    + intros (f' & Hf & E). injection Hf as <-. apply G; exact E.
    + intros E. exists f. split; [reflexivity|apply Y; exact E].
    + intros (f' & Hf & E). injection Hf as <-. apply Y; exact E.
    + intros E. right. exists f. split; [reflexivity|apply R; exact E].
    + intros [E|(f' & Hf & E)]; [discriminate|].
      injection Hf as <-. apply R; exact E.
  - simpl. repeat split; try (intros E; congruence); auto.
    + intros (f & Hf & _). discriminate.
    + intros (f & Hf & _). discriminate.
Qed.

Lemma latency_marker_of_extracted_witness :
  emoji_for_latency (Some (S754_finite false 5013632285170205 (-47))) = green.
Proof.
  refine (proj2 (proj1 (@latency_marker_of_extracted
                          default_max_str_digits "Idle Latency: 35.624 ms"
                          (Metrics None None
                             (Some (S754_finite false 5013632285170205 (-47)))
                             "Unknown" None None) _)) _).
  - vm_compute. reflexivity.
  - eexists. split; [reflexivity|]. vm_compute. reflexivity.
Defined.

(** ** What is matched is in the text *)

Lemma rep_ways_sound (ic gr : bool) (a : atom) (s : string) :
  forall lo g w,
    In w (rep_ways ic gr a lo s g) -> s = consumed w ++ rest w.
Proof.
  induction s as [|c s IH]; intros lo g w H; simpl in H.
  - destruct lo; simpl in H; [|contradiction].
    destruct H as [<-|[]]. reflexivity.
  - assert (Hstop : In w (match lo with O => [Way "" (String c s) g]
                                   | S _ => [] end) ->
                    String c s = consumed w ++ rest w).
    { destruct lo; simpl; [|contradiction]. intros [<-|[]]. reflexivity. }
    assert (Hmore : In w (map (extend c) (rep_ways ic gr a (pred lo) s g)) ->
                    String c s = consumed w ++ rest w).
    { intros Hin. apply in_map_iff in Hin. destruct Hin as (w' & <- & Hw').
      simpl. f_equal. eapply IH; eassumption. }
    destruct (atom_match ic a c); [|auto].
    destruct gr; apply in_app_or in H; destruct H; auto.
Qed.

(** A way of matching splits the text it started from. *)
Lemma ways_sound (ic : bool) (r : regex) :
  forall s g w, In w (ways ic r s g) -> s = consumed w ++ rest w.
Proof.
  induction r as [|a|r1 IH1 r2 IH2|r1 IH1 r2 IH2|gr lo a|k r IH|r IH];
    intros s g w H; cbn [ways] in H.
  - destruct H as [<-|[]]. reflexivity.
  - destruct s as [|c s]; [contradiction|].
    destruct (atom_match ic a c); [|contradiction].
    destruct H as [<-|[]]. reflexivity.
  - apply in_flat_map in H. destruct H as (w1 & H1 & H).
    apply in_map_iff in H. destruct H as (w2 & <- & H2). simpl.
    rewrite append_assoc, <- (IH2 _ _ _ H2). eapply IH1; eassumption.
  - apply in_app_or in H. destruct H; [eapply IH1|eapply IH2]; eassumption.
  - eapply rep_ways_sound; eassumption.
  - apply in_map_iff in H. destruct H as (w' & <- & H'). simpl.
    eapply IH; eassumption.
  - eapply IH; eassumption.
Qed.

(** What a group holds after a match was either there before or is a
    piece of what the match consumed. *)
Lemma ways_group_piece (ic : bool) (n : nat) (r : regex) :
  forall s g w v,
    In w (ways ic r s g) -> lookup n (caps w) = Some v ->
    lookup n g = Some v \/ piece_of v (consumed w).
Proof.
  induction r as [|a|r1 IH1 r2 IH2|r1 IH1 r2 IH2|gr lo a|k r IH|r IH];
    intros s g w v H Hv; cbn [ways] in H.
  - destruct H as [<-|[]]. auto.
  - destruct s as [|c s]; [contradiction|].
    destruct (atom_match ic a c); [|contradiction].
    destruct H as [<-|[]]. auto.
  - apply in_flat_map in H. destruct H as (w1 & H1 & H).
    apply in_map_iff in H. destruct H as (w2 & <- & H2). simpl in Hv |- *.
    destruct (IH2 _ _ _ _ H2 Hv) as [Hv1|(a & b & E)].
    + destruct (IH1 _ _ _ _ H1 Hv1) as [Hg|(a & b & E)]; [auto|].
      right. exists a, (b ++ consumed w2). rewrite E, !append_assoc.
      reflexivity.
    + right. exists (consumed w1 ++ a), b. rewrite E, !append_assoc.
      reflexivity.
  - apply in_app_or in H. destruct H; [eapply IH1|eapply IH2]; eassumption.
  - apply rep_ways_spec in H. destruct H as (Hc & _). rewrite Hc in Hv. auto.
  - apply in_map_iff in H. destruct H as (w' & <- & H'). simpl in Hv |- *.
    destruct (Nat.eqb k n).
    + injection Hv as <-. right. exists "", "".
      rewrite append_empty_r. reflexivity.
    + eapply IH; eassumption.
  - eapply IH; eassumption.
Qed.

(** A match found by [search] sits in the text at its start position. *)
Lemma search_from_sound (ic : bool) (r : regex) (s : string) :
  forall pos m,
    search_from ic r pos s = Some m ->
    exists pre w,
      s = pre ++ consumed w ++ rest w
      /\ In w (ways ic r (consumed w ++ rest w) [])
      /\ m_text m = consumed w /\ m_groups m = caps w
      /\ m_start m = (pos + String.length pre)%nat.
Proof.
  induction s as [|c s IH]; intros pos m H;
    rewrite search_from_unfold in H.
  - destruct (ways ic r "" []) as [|w l] eqn:Hw; [discriminate|].
    injection H as <-.
    assert (Hin : In w (ways ic r "" [])) by (rewrite Hw; simpl; auto).
    pose proof (ways_sound _ _ _ _ _ Hin) as E.
    exists "", w. simpl. rewrite <- E. repeat split; auto.
  - destruct (ways ic r (String c s) []) as [|w l] eqn:Hw.
    + destruct (IH _ _ H) as (pre & w & E & Hin & Ht & Hg & Hs).
      exists (String c pre), w. simpl. rewrite <- E.
      repeat split; auto. rewrite Hs. lia.
    + injection H as <-.
      assert (Hin : In w (ways ic r (String c s) []))
        by (rewrite Hw; simpl; auto).
      pose proof (ways_sound _ _ _ _ _ Hin) as E.
      exists "", w. simpl. rewrite <- E. repeat split; auto.
Qed.

Lemma search_group_piece (r : regex) (text : string) (flags : bool)
    (m : match_obj) (n : nat) (v : string) :
  search r text flags = Some m -> group m n = Some v -> piece_of v text.
Proof.
  intros H Hv. unfold search in H. apply search_from_sound in H.
  destruct H as (pre & w & E & Hin & _ & Hg & _).
  unfold group in Hv. rewrite Hg in Hv.
  destruct (ways_group_piece _ _ _ _ _ _ Hin Hv) as [Hn|(a & b & Ec)];
    [discriminate|].
  exists (pre ++ a), (b ++ rest w). rewrite E, Ec, !append_assoc.
  reflexivity.
Qed.

Lemma field_from_piece {A} (text : string) (pat : regex)
    (conv : string -> result A) (v : option A) (x : A) :
  field_from text pat conv v -> v = Some x ->
  exists g, piece_of g text /\ conv g = Ok x.
Proof.
  unfold field_from. intros H ->.
  destruct (search pat text IGNORECASE) as [m|] eqn:Hm; [|discriminate].
  destruct H as (g & y & Hg & Hy & Hv). injection Hv as <-.
  exists g. split; [|exact Hy]. eapply search_group_piece; eassumption.
Qed.

(** Nothing in a returned record is made up: every number is the
    conversion of a contiguous piece of the text, and the label is
    "Unknown" or the title-cased form of such a piece. *)
Theorem extracted_values_come_from_text (lim : nat) (text : string)
    (r : metrics) :
  parse_network_quality lim text = Ok r ->
  (forall f, down r = Some f ->
     exists g, piece_of g text /\ py_float g = Ok f)
  /\ (forall f, up r = Some f ->
        exists g, piece_of g text /\ py_float g = Ok f)
  /\ (forall f, latency_ms r = Some f ->
        exists g, piece_of g text /\ py_float g = Ok f)
  /\ (forall n, idle_rpm r = Some n ->
        exists g, piece_of g text /\ py_int lim g = Ok n)
  /\ (forall n, resp_rpm r = Some n ->
        exists g, piece_of g text /\ py_int lim g = Ok n)
  /\ (resp_label r = "Unknown"
      \/ exists g, piece_of g text /\ resp_label r = title g).
Proof.
  intros H.
  destruct (@parse_ok_fields _ _ _ H) as (A & B & C & D & E & F & G).
  repeat match goal with |- _ /\ _ => split end.
  - intros f Hf. exact (@field_from_piece _ _ _ _ _ _ A Hf).
  - intros f Hf. exact (@field_from_piece _ _ _ _ _ _ B Hf).
  - intros f Hf. exact (@field_from_piece _ _ _ _ _ _ C Hf).
  - intros n Hn. exact (@field_from_piece _ _ _ _ _ _ D Hn).
  - intros n Hn. exact (@field_from_piece _ _ _ _ _ _ E Hn).
  - destruct (search pat_resp_label text IGNORECASE) as [m|] eqn:Hm.
    + right. destruct (G m eq_refl) as (g & Hg & Ht).
      exists g. split; [|exact Ht]. eapply search_group_piece; eassumption.
    + left. apply F. reflexivity.
Qed.

Lemma extracted_values_come_from_text_witness :
  exists g, piece_of g "Responsiveness: Low (48 RPM)"
            /\ py_int default_max_str_digits g = Ok 48.
Proof.
  refine (proj1 (proj2 (proj2 (proj2 (proj2
            (@extracted_values_come_from_text default_max_str_digits
               "Responsiveness: Low (48 RPM)"
               (Metrics None None None "Low" (Some 48) None) _)))))
            48 eq_refl).
  vm_compute. reflexivity.
Defined.

(** ** Output without any colon *)







(** ** Integers written and read *)

Lemma string_of_uint_value (d : Decimal.uint) :
  forall acc,
    decimal_value acc (DecimalString.NilEmpty.string_of_uint d)
    = uint_value acc d.
Proof.
  induction d; intros acc; cbn [DecimalString.NilEmpty.string_of_uint
                                 decimal_value uint_value];
    [reflexivity|rewrite IHd; reflexivity..].
Qed.

Lemma string_of_uint_digits (d : Decimal.uint) :
  all_digits (DecimalString.NilEmpty.string_of_uint d) = true.
Proof.
  induction d; cbn [DecimalString.NilEmpty.string_of_uint all_digits];
    [reflexivity|rewrite IHd; reflexivity..].
Qed.

Lemma of_uint_acc_value (d : Decimal.uint) :
  forall p, Zpos (Pos.of_uint_acc d p) = uint_value (Zpos p) d.
Proof.
  induction d; intros p; cbn [Pos.of_uint_acc uint_value];
    [reflexivity|rewrite IHd; f_equal; lia..].
Qed.

Lemma of_uint_value (d : Decimal.uint) :
  Z.of_N (Pos.of_uint d) = uint_value 0 d.
Proof.
  induction d; cbn [Pos.of_uint uint_value];
    [reflexivity|exact IHd|cbn [Z.of_N]; rewrite of_uint_acc_value;
                            reflexivity..].
Qed.

(** The decimal text of a natural number is a run of digits that reads
    back as the number. *)
Lemma str_of_nat_Z_spec (k : Z) :
  0 <= k ->
  digit_text (str_of_nat_Z k) /\ decimal_value 0 (str_of_nat_Z k) = k.
Proof.
  intros Hk. unfold str_of_nat_Z, DecimalString.NilZero.string_of_uint.
  pose proof (DecimalN.Unsigned.of_to (Z.to_N k)) as Hof.
  unfold N.of_uint in Hof.
  destruct (N.to_uint (Z.to_N k)) as [|d|d|d|d|d|d|d|d|d|d] eqn:Hd.
  1: { split; [split; [reflexivity|discriminate]|].
       change (decimal_value 0 "0") with 0.
       change (Pos.of_uint Decimal.Nil) with 0%N in Hof. lia. }
  all: (split;
        [split; [apply string_of_uint_digits|discriminate]
        |rewrite string_of_uint_value, <- of_uint_value, Hof; lia]).
Qed.

Lemma py_int_nonneg (lim : nat) (v : string) (n : Z) :
  py_int lim v = Ok n -> 0 <= n.
Proof.
  unfold py_int.
  destruct (all_digits v && negb (Nat.eqb (String.length v) 0))%bool eqn:Hd;
    [|discriminate].
  destruct (negb (Nat.eqb lim 0) && Nat.ltb lim (String.length v))%bool;
    [discriminate|].
  intros H. injection H as <-.
  apply andb_true_iff in Hd. destruct Hd as [Hd _].
  apply decimal_value_nonneg; [exact Hd|lia].
Qed.

Lemma field_from_int_nonneg (lim : nat) (text : string) (pat : regex)
    (v : option Z) (n : Z) :
  field_from text pat (py_int lim) v -> v = Some n -> 0 <= n.
Proof.
  unfold field_from. intros H ->.
  destruct (search pat text IGNORECASE) as [m|]; [|discriminate].
  destruct H as (g & x & _ & Hx & Hv). injection Hv as <-.
  eapply py_int_nonneg; eassumption.
Qed.

(** An RPM the extractor returns is never negative, and what the log row
    shows for it is its plain decimal text: a run of digits that [int]
    reads back as the same number. *)
Theorem logged_rpm_reads_back (lim : nat) (text : string) (r : metrics)
    (n : Z) :
  parse_network_quality lim text = Ok r ->
  resp_rpm r = Some n \/ idle_rpm r = Some n ->
  0 <= n
  /\ digit_text (cell_text (Int n))
  /\ py_int 0 (cell_text (Int n)) = Ok n.
Proof.
  intros H Hn.
  destruct (@parse_ok_fields _ _ _ H) as (_ & _ & _ & D & E & _).
  assert (Hpos : 0 <= n).
  { destruct Hn as [Hn|Hn].
    - exact (@field_from_int_nonneg _ _ _ _ _ E Hn).
    - exact (@field_from_int_nonneg _ _ _ _ _ D Hn). }
  split; [exact Hpos|].
  unfold cell_text, str_of_int.
  destruct (Z.ltb_spec n 0) as [Hlt|_]; [lia|].
  destruct (str_of_nat_Z_spec Hpos) as [Hd Hv].
  split; [exact Hd|].
  rewrite (py_int_digit_text 0 Hd), Hv. reflexivity.
Qed.

Lemma logged_rpm_reads_back_witness :
  py_int 0 (cell_text (Int 1684)) = Ok 1684.
Proof.
  refine (proj2 (proj2 (@logged_rpm_reads_back default_max_str_digits
                          "Idle Latency: 35.624 milliseconds | 0001684 RPM"
                          (Metrics None None
                             (Some (S754_finite false 5013632285170205 (-47)))
                             "Unknown" None (Some 1684))
                          1684 _ _))).
  - vm_compute. reflexivity.
  - right. reflexivity.
Defined.

(** ** fmt on what the extractor returns *)

Lemma round_half_even_nonneg (n d : Z) :
  0 <= n -> 0 < d -> 0 <= round_half_even n d.
Proof.
  intros Hn Hd. unfold round_half_even.
  assert (0 <= n / d) by (apply Z.div_pos; lia).
  destruct (2 * (n mod d) ?= d); [destruct (Z.even (n / d))| |]; lia.
Qed.

Lemma short_below_1000 (j : Z) :
  0 <= j < 1000 -> (String.length (str_of_nat_Z j) <= 3)%nat.
Proof.
  intros Hj.
  assert (Hall : forallb (fun i => Nat.leb (String.length
                                              (str_of_nat_Z (Z.of_nat i))) 3)
                         (List.seq 0 1000) = true)
    by (vm_compute; reflexivity).
  rewrite forallb_forall in Hall.
  specialize (Hall (Z.to_nat j)). rewrite Z2Nat.id in Hall by lia.
  apply Nat.leb_le. apply Hall. apply in_seq. lia.
Qed.

Lemma zeros_spec (n : nat) :
  all_digits (zeros n) = true /\ String.length (zeros n) = n.
Proof.
  induction n as [|n [IH1 IH2]]; simpl; [auto|].
  rewrite IH1, IH2. auto.
Qed.

Lemma length_append (a b : string) :
  String.length (a ++ b) = (String.length a + String.length b)%nat.
Proof. induction a as [|c a IH]; simpl; [|rewrite IH]; reflexivity. Qed.

Lemma fixed_digits_three (k : Z) : 0 <= k -> three_decimals (fixed_digits 3 k).
Proof.
  intros Hk. unfold fixed_digits.
  change (10 ^ Z.of_nat 3) with 1000.
  assert (Hq : 0 <= k / 1000) by (apply Z.div_pos; lia).
  assert (Hr : 0 <= k mod 1000 < 1000) by (apply Z.mod_pos_bound; lia).
  destruct (str_of_nat_Z_spec Hq) as [Ha _].
  destruct (@str_of_nat_Z_spec (k mod 1000) ltac:(lia)) as [[Hb _] _].
  pose proof (short_below_1000 Hr) as Hlen.
  destruct (zeros_spec (3 - String.length (str_of_nat_Z (k mod 1000))))
    as [Hz Hzl].
  exists (str_of_nat_Z (k / 1000)),
    (zeros (3 - String.length (str_of_nat_Z (k mod 1000)))
     ++ str_of_nat_Z (k mod 1000)).
  repeat split.
  - apply Ha.
  - apply Ha.
  - rewrite all_digits_app, Hz, Hb. reflexivity.
  - rewrite length_append, Hzl. lia.
Qed.

Lemma fmt_nonneg (x : option float) :
  (forall f, x = Some f -> is_nonneg f) ->
  fmt x 3 = "inf" \/ three_decimals (fmt x 3).
Proof.
  intros Hx. destruct x as [f|].
  - specialize (Hx f eq_refl).
    destruct f as [[|]|[|]| |[|] m e]; simpl in Hx; try contradiction.
    + right. exists "0", "000". repeat split; discriminate || reflexivity.
    + left. reflexivity.
    + right. cbn [fmt format_f sign_text append].
      apply fixed_digits_three. apply round_half_even_nonneg.
      * assert (0 < 2 ^ Z.max e 0) by (apply Z.pow_pos_nonneg; lia). nia.
      * apply Z.pow_pos_nonneg; lia.
  - right. exists "0", "000". repeat split; discriminate || reflexivity.
Qed.

(** The three number columns of the summary and of the log always read
    the same way: digits, a point and exactly three more digits
    ("0.000" for an absent value), or "inf" for a number too large for a
    float; never a sign, an exponent, "nan" or "None". *)
Theorem number_columns_format (lim : nat) (text : string) (r : metrics) :
  parse_network_quality lim text = Ok r ->
  (fmt (down r) 3 = "inf" \/ three_decimals (fmt (down r) 3))
  /\ (fmt (up r) 3 = "inf" \/ three_decimals (fmt (up r) 3))
  /\ (fmt (latency_ms r) 3 = "inf" \/ three_decimals (fmt (latency_ms r) 3)).
Proof.
  intros H.
  repeat split; apply fmt_nonneg; intros f Hf;
    eapply parse_floats_valid; eauto.
Qed.

Lemma number_columns_format_witness :
  fmt (Some (S754_finite false 6504482091504239 (-44))) 3 = "inf"
  \/ three_decimals (fmt (Some (S754_finite false 6504482091504239 (-44))) 3).
Proof.
  refine (proj1 (@number_columns_format default_max_str_digits
                   "Downlink capacity: 369.737 Mbps"
                   (Metrics (Some (S754_finite false 6504482091504239 (-44)))
                            None None "Unknown" None None) _)).
  vm_compute. reflexivity.
Defined.
